(** * TensorWrap: strided N-D addressing views

    A shallow embedding of [nvcv/cuda/TensorWrap.hpp]: the non-owning
    tensor view whose per-dimension byte pitches are split between
    compile-time template arguments ([Strides...], with [-1] marking a
    run-time pitch) and the run-time array [m_strides].

    Conventions of the embedding:
    - the template pack [Strides...] is a [list Z], passed explicitly to
      every member function;
    - a C++ [int] is a [Z] whose arithmetic is reduced to 32-bit two's
      complement after every operation ([Int.add], [Int.mul]): signed
      overflow, which ISO C++ leaves undefined, is given the wrapped
      result of the 32-bit machine instructions; an [int64_t] to [int]
      conversion is [Int.wrap];
    - a byte address is a [Z]; [m_data + offset] adds the (sign-extended)
      [int] offset to it, and the 64-bit pointer an address stands for
      is its residue modulo [2^64] ([pointer_bits]);
    - an instantiation rejected by a [static_assert] is [None];
    - a failed [NVCV_ASSERT] is the [Abort] outcome of the [result] monad. *)

From Stdlib Require Import ZArith Lia.
From stdpp Require Import base option list gmap strings.

Local Open Scope Z_scope.

(** ** 32-bit signed integers *)

Module Int.

Definition modulus : Z := 2 ^ 32.
Definition min : Z := - 2 ^ 31.
(** Modelled from the spec: [TypeTraits<int>::max] ([TypeTraits.hpp] is
    not part of the sources) is the largest 32-bit signed integer. *)
Definition max : Z := 2 ^ 31 - 1.

(** Reduction to the two's-complement representative in [min..max]. *)
Definition wrap (z : Z) : Z := (z - min) mod modulus + min.

Definition add (a b : Z) : Z := wrap (a + b).
Definition mul (a b : Z) : Z := wrap (a * b).

Definition in_range (z : Z) : Prop := min <= z <= max.

#[global] Instance in_range_dec z : Decision (in_range z).
Proof. unfold in_range. apply _. Defined.

End Int.

(** ** The template parameters *)

(** The run-time marker used in [Strides...]. *)
Definition kRuntime : Z := -1.

Definition kNumDimensions (Strides : list Z) : nat := length Strides.

(** [((Strides == -1) + ...)] *)
Definition kVariableStrides (Strides : list Z) : nat :=
  foldr (fun s n => ((if decide (s = kRuntime) then 1 else 0) + n)%nat) 0%nat Strides.

Definition kConstantStrides (Strides : list Z) : nat :=
  (kNumDimensions Strides - kVariableStrides Strides)%nat.

(** ** The view *)

Definition nullptr : Z := 0.

(** [TensorWrap<const T, Strides...>]: the two data members. *)
Record ConstTensorWrap : Type := MkWrap {
  m_data : Z;
  m_strides : list Z
}.

(** [TensorWrap<T, Strides...>] derives from the constant view and adds
    no member. *)
Record TensorWrap : Type := MkMutWrap {
  Base : ConstTensorWrap
}.

(** [for (int i = lo; i < hi; ++i) acc = body(i, acc);] *)
Definition for_loop {A} (lo hi : nat) (body : nat -> A -> A) (acc : A) : A :=
  foldl (fun a i => body i a) acc (seq lo (hi - lo)).

(** [TensorWrap() = default]: the default member initialisers. *)
Definition TensorWrap_default (Strides : list Z) : ConstTensorWrap :=
  {| m_data := nullptr; m_strides := replicate (kVariableStrides Strides) 0 |}.

(** [TensorWrap(const DataType *data, Args... strides)] *)
Definition TensorWrap_ptr (Strides : list Z) (data : Z) (strides : list Z)
  : option ConstTensorWrap :=
  if decide (length strides = kVariableStrides Strides)
  then Some {| m_data := data; m_strides := strides |}
  else None.

(** [doGetPtr(Args... c)] of the constant view. *)
Definition doGetPtr (Strides : list Z) (this : ConstTensorWrap) (c : list Z)
  : option Z :=
  let kArgSize := length c in
  if decide (kArgSize <= kNumDimensions Strides)%nat then
    let kVarSize :=
      if decide (kArgSize < kVariableStrides Strides)%nat
      then kArgSize else kVariableStrides Strides in
    let kDimSize :=
      if decide (kArgSize < kNumDimensions Strides)%nat
      then kArgSize else kNumDimensions Strides in
    let kStride := Strides in
    let coords := c in
    let offset := 0 in
    let offset :=
      for_loop 0 kVarSize
        (fun i offset => Int.add offset (Int.mul (coords !!! i) (m_strides this !!! i)))
        offset in
    let offset :=
      for_loop (kVariableStrides Strides) kDimSize
        (fun i offset => Int.add offset (Int.mul (coords !!! i) (kStride !!! i)))
        offset in
    Some (m_data this + offset)
  else None.

(** [ptr(Args... c)] *)
Definition ptr (Strides : list Z) (this : ConstTensorWrap) (c : list Z) : option Z :=
  doGetPtr Strides this c.

(** Integer coordinate arguments accepted by [operator[]]: a plain [int]
    or one of the CUDA vector types [int1] .. [int4], with components in
    the order [x], [y], [z], [w]. *)
Inductive DimType : Type :=
  | dim_int (c : Z)
  | dim_int1 (x : Z)
  | dim_int2 (x y : Z)
  | dim_int3 (x y z : Z)
  | dim_int4 (x y z w : Z).

Definition NumElements (c : DimType) : nat :=
  match c with
  | dim_int _ | dim_int1 _ => 1
  | dim_int2 _ _ => 2
  | dim_int3 _ _ _ => 3
  | dim_int4 _ _ _ _ => 4
  end.

(** [operator[](DimType c)] of the constant view; the reference it
    returns is identified with the address it designates. *)
Definition subscript (Strides : list Z) (this : ConstTensorWrap) (c : DimType)
  : option Z :=
  match c with
  | dim_int c => doGetPtr Strides this [c]
  | dim_int1 x => doGetPtr Strides this [x]
  | dim_int2 x y => doGetPtr Strides this [y; x]
  | dim_int3 x y z => doGetPtr Strides this [z; y; x]
  | dim_int4 x y z w => doGetPtr Strides this [w; z; y; x]
  end.

(** ** The mutable view *)

Module Mut.

(** [const_cast<T *>]: the address is unchanged. *)
Definition const_cast (p : Z) : Z := p.

Definition TensorWrap_default (Strides : list Z) : TensorWrap :=
  {| Base := TensorWrap_default Strides |}.

(** [TensorWrap(DataType *data, Args... strides) : Base(data, strides...)] *)
Definition TensorWrap_ptr (Strides : list Z) (data : Z) (strides : list Z)
  : option TensorWrap :=
  MkMutWrap <$> TensorWrap_ptr Strides data strides.

Definition doGetPtr (Strides : list Z) (this : TensorWrap) (c : list Z)
  : option Z :=
  const_cast <$> doGetPtr Strides (Base this) c.

Definition ptr (Strides : list Z) (this : TensorWrap) (c : list Z) : option Z :=
  doGetPtr Strides this c.

Definition subscript (Strides : list Z) (this : TensorWrap) (c : DimType)
  : option Z :=
  match c with
  | dim_int c => doGetPtr Strides this [c]
  | dim_int1 x => doGetPtr Strides this [x]
  | dim_int2 x y => doGetPtr Strides this [y; x]
  | dim_int3 x y z => doGetPtr Strides this [z; y; x]
  | dim_int4 x y z w => doGetPtr Strides this [w; z; y; x]
  end.

End Mut.

(** ** Memory

    Elements of type [T] live at byte addresses.  A reference is an
    address; reading through it looks the address up, assigning through
    it updates the cell. *)

Section Memory.
Context {T : Type}.

Definition load (mem : gmap Z T) (ref : option Z) : option T :=
  p ← ref; mem !! p.

Definition store (mem : gmap Z T) (ref : option Z) (v : T) : option (gmap Z T) :=
  p ← ref; Some (<[p := v]> mem).

End Memory.

(** ** Descriptors *)

(** Modelled from the spec: the strided-image descriptor (declared in
    [nvcv/IImageData.hpp], not part of the sources) exposes per plane a
    base address and a row pitch in bytes, the latter a 32-bit integer. *)
Record ImagePlaneStrided : Type := MkPlane {
  plane_basePtr : Z;
  rowStride : Z
}.

Record IImageDataStridedCuda : Type := MkImage {
  numPlanes : nat;
  plane : nat -> ImagePlaneStrided
}.

(** Modelled from the spec: the strided-tensor descriptor (declared in
    [nvcv/ITensorData.hpp], not part of the sources) exposes its rank, a
    byte stride per axis (a 64-bit integer) and a raw base address. *)
Record ITensorDataStridedCuda : Type := MkTensor {
  basePtr : Z;
  tensor_strides : list Z
}.

Definition rank (tensor : ITensorDataStridedCuda) : nat :=
  length (tensor_strides tensor).

Definition stride (tensor : ITensorDataStridedCuda) (d : nat) : Z :=
  tensor_strides tensor !!! d.

(** ** Assertions *)

(** The three [NVCV_ASSERT]s of the tensor constructor. *)
Inductive assertion : Type :=
  | assert_rank
  | assert_const_stride (i : nat)
  | assert_stride_max (i : nat).

Inductive result (A : Type) : Type :=
  | Ok (a : A)
  | Abort (failed : assertion).
Arguments Ok {A} a.
Arguments Abort {A} failed.

#[global] Instance result_ret : MRet result := fun A a => Ok a.
#[global] Instance result_bind : MBind result := fun A B f r =>
  match r with
  | Ok a => f a
  | Abort e => Abort e
  end.

(** Modelled from the spec: [NVCV_ASSERT] ([util/Assert.h] is not part
    of the sources) aborts when its condition is false. *)
Definition NVCV_ASSERT (which : assertion) (cond : bool) : result unit :=
  if cond then Ok () else Abort which.

(** ** Construction from descriptors *)

(** [TensorWrap(const IImageDataStridedCuda &image)] *)
Definition TensorWrap_image (Strides : list Z) (image : IImageDataStridedCuda)
  : option ConstTensorWrap :=
  if decide (kVariableStrides Strides = 1%nat /\ kNumDimensions Strides = 2%nat) then
    let this := TensorWrap_default Strides in
    let this := {| m_data := plane_basePtr (plane image 0);
                   m_strides := m_strides this |} in
    let this := {| m_data := m_data this;
                   m_strides := <[0%nat := rowStride (plane image 0)]> (m_strides this) |} in
    Some this
  else None.

(** The body of the loop of the tensor constructor at index [i]. *)
Definition tensor_step (Strides : list Z) (tensor : ITensorDataStridedCuda)
    (i : nat) (this : ConstTensorWrap) : result ConstTensorWrap :=
  let kStride := Strides in
  if decide (kStride !!! i <> -1) then
    _ ← NVCV_ASSERT (assert_const_stride i)
          (bool_decide (stride tensor i = kStride !!! i));
    mret this
  else if decide (i < kVariableStrides Strides)%nat then
    _ ← NVCV_ASSERT (assert_stride_max i)
          (bool_decide (stride tensor i <= Int.max));
    mret {| m_data := m_data this;
            m_strides := <[i := Int.wrap (stride tensor i)]> (m_strides this) |}
  else mret this.

(** The loop body threaded through the outcome of the preceding
    iterations: once an assertion has failed nothing more is run. *)
Definition tensor_iter (Strides : list Z) (tensor : ITensorDataStridedCuda)
    (i : nat) (st : result ConstTensorWrap) : result ConstTensorWrap :=
  this ← st; tensor_step Strides tensor i this.

(** [TensorWrap(const ITensorDataStridedCuda &tensor)] *)
Definition TensorWrap_tensor (Strides : list Z) (tensor : ITensorDataStridedCuda)
  : result ConstTensorWrap :=
  _ ← NVCV_ASSERT assert_rank
        (bool_decide (kNumDimensions Strides <= rank tensor)%nat);
  let this := TensorWrap_default Strides in
  let this := {| m_data := basePtr tensor; m_strides := m_strides this |} in
  for_loop 0 (kNumDimensions Strides) (tensor_iter Strides tensor) (mret this).

(** ** The shortcuts *)

Definition Tensor1DWrap (sizeof_T : Z) : list Z := [sizeof_T].
Definition Tensor2DWrap (sizeof_T : Z) : list Z := [-1; sizeof_T].
Definition Tensor3DWrap (sizeof_T : Z) : list Z := [-1; -1; sizeof_T].
Definition Tensor4DWrap (sizeof_T : Z) : list Z := [-1; -1; -1; sizeof_T].

(** ** Specification-level offset

    The byte pitch of dimension [i]: the stored run-time pitch for
    [i < kVariableStrides], the template argument otherwise. *)
Definition stride_at (Strides : list Z) (this : ConstTensorWrap) (i : nat) : Z :=
  if decide (i < kVariableStrides Strides)%nat
  then m_strides this !!! i
  else Strides !!! i.

Definition Zsum (l : list Z) : Z := foldr Z.add 0 l.

(** [Σ c[i]·S[i]] over the supplied coordinates, in unbounded integers. *)
Definition byte_offset (Strides : list Z) (this : ConstTensorWrap) (c : list Z) : Z :=
  Zsum ((fun i => (c !!! i) * stride_at Strides this i) <$> seq 0 (length c)).

(** The part of the sum that belongs to the compile-time pitches. *)
Definition constant_offset (Strides : list Z) (c : list Z) : Z :=
  Zsum ((fun i => (c !!! i) * (Strides !!! i))
          <$> seq (kVariableStrides Strides) (length c - kVariableStrides Strides)).

(** The components of a coordinate argument in the order [x], [y], [z], [w]. *)
Definition components (c : DimType) : list Z :=
  match c with
  | dim_int c => [c]
  | dim_int1 x => [x]
  | dim_int2 x y => [x; y]
  | dim_int3 x y z => [x; y; z]
  | dim_int4 x y z w => [x; y; z; w]
  end.

(** ** The tensor constructor, slot by slot

    What iteration [i] of the constructor's loop checks, which assertion
    it raises when the check fails, and what it stores. *)
Definition slot_checked (Strides : list Z) (tensor : ITensorDataStridedCuda)
    (i : nat) : bool :=
  if decide (Strides !!! i <> -1) then bool_decide (stride tensor i = Strides !!! i)
  else if decide (i < kVariableStrides Strides)%nat
       then bool_decide (stride tensor i <= Int.max)
       else true.

Definition slot_assertion (Strides : list Z) (i : nat) : assertion :=
  if decide (Strides !!! i <> -1) then assert_const_stride i else assert_stride_max i.

Definition slot_stored (Strides : list Z) (tensor : ITensorDataStridedCuda)
    (strides : list Z) (i : nat) : list Z :=
  if decide (Strides !!! i = -1 /\ (i < kVariableStrides Strides)%nat)
  then <[i := Int.wrap (stride tensor i)]> strides
  else strides.

(** ** Further members and helpers of [TensorWrap.hpp] *)

(** [strides()]: the array of run-time pitches. *)
Definition strides (this : ConstTensorWrap) : list Z := m_strides this.

(** [TensorWrap(const IImageDataStridedCuda &image) : Base(image)] *)
Definition Mut_TensorWrap_image (Strides : list Z) (image : IImageDataStridedCuda)
  : option TensorWrap :=
  MkMutWrap <$> TensorWrap_image Strides image.

(** [TensorWrap(const ITensorDataStridedCuda &tensor) : Base(tensor)] *)
Definition Mut_TensorWrap_tensor (Strides : list Z) (tensor : ITensorDataStridedCuda)
  : result TensorWrap :=
  V ← TensorWrap_tensor Strides tensor; mret (MkMutWrap V).

(** [TensorNDWrap<T, N>]: the shortcut for [N] dimensions, [void]
    ([None]) for any other [N]. *)
Definition TensorNDWrap (sizeof_T : Z) (N : Z) : option (list Z) :=
  if decide (N = 1) then Some (Tensor1DWrap sizeof_T)
  else if decide (N = 2) then Some (Tensor2DWrap sizeof_T)
  else if decide (N = 3) then Some (Tensor3DWrap sizeof_T)
  else if decide (N = 4) then Some (Tensor4DWrap sizeof_T)
  else None.

(** Modelled from the spec: the access-planning collaborator
    ([nvcv/TensorDataAccess.hpp], not part of the sources) derives the
    sample, row and column byte strides (64-bit integers) of a tensor. *)
Record TensorDataAccessStridedImagePlanar : Type := MkAccess {
  sampleStride : Z;
  planar_rowStride : Z;
  colStride : Z
}.

(** The [NVCV_ASSERT]s of the two factory functions. *)
Inductive factory_assertion : Type :=
  | assert_tensorAccess
  | assert_sampleStride
  | assert_rowStride
  | assert_colStride.

Inductive created (A : Type) : Type :=
  | Created (a : A)
  | Failed (failed : factory_assertion).
Arguments Created {A} a.
Arguments Failed {A} failed.

(** [CreateTensorWrapNHW<T>(tensor)]; [Create] stands for
    [TensorDataAccessStridedImagePlanar::Create], which yields no access
    object for a tensor it cannot plan. *)
Definition CreateTensorWrapNHW
    (Create : ITensorDataStridedCuda -> option TensorDataAccessStridedImagePlanar)
    (sizeof_T : Z) (tensor : ITensorDataStridedCuda)
  : created (option ConstTensorWrap) :=
  match Create tensor with
  | None => Failed assert_tensorAccess
  | Some tensorAccess =>
      if negb (bool_decide (sampleStride tensorAccess <= Int.max))
      then Failed assert_sampleStride
      else if negb (bool_decide (planar_rowStride tensorAccess <= Int.max))
      then Failed assert_rowStride
      else Created (TensorWrap_ptr (Tensor3DWrap sizeof_T) (basePtr tensor)
                      [Int.wrap (sampleStride tensorAccess);
                       Int.wrap (planar_rowStride tensorAccess)])
  end.

(** [CreateTensorWrapNHWC<T>(tensor)] *)
Definition CreateTensorWrapNHWC
    (Create : ITensorDataStridedCuda -> option TensorDataAccessStridedImagePlanar)
    (sizeof_T : Z) (tensor : ITensorDataStridedCuda)
  : created (option ConstTensorWrap) :=
  match Create tensor with
  | None => Failed assert_tensorAccess
  | Some tensorAccess =>
      if negb (bool_decide (sampleStride tensorAccess <= Int.max))
      then Failed assert_sampleStride
      else if negb (bool_decide (planar_rowStride tensorAccess <= Int.max))
      then Failed assert_rowStride
      else if negb (bool_decide (colStride tensorAccess <= Int.max))
      then Failed assert_colStride
      else Created (TensorWrap_ptr (Tensor4DWrap sizeof_T) (basePtr tensor)
                      [Int.wrap (sampleStride tensorAccess);
                       Int.wrap (planar_rowStride tensorAccess);
                       Int.wrap (colStride tensorAccess)])
  end.

(** ** Layouts

    Specification-level notions used to state what the addressing
    guarantees to a caller that owns a buffer. *)

(** The value of the 64-bit pointer that holds an address. *)
Definition pointer_bits (p : Z) : Z := p mod 2 ^ 64.

(** [Σ c[i]·p[i]] by recursion on the two lists. *)
Fixpoint dot (c p : list Z) : Z :=
  match c, p with
  | x :: c', y :: p' => x * y + dot c' p'
  | _, _ => 0
  end.

(** The pitches of the first [n] dimensions of a view. *)
Definition pitches (Strides : list Z) (this : ConstTensorWrap) (n : nat) : list Z :=
  stride_at Strides this <$> seq 0 n.

(** Bytes spanned by the sub-tensor of the remaining dimensions; the
    element size when no dimension remains. *)
Definition span (extents p : list Z) (sizeof_T : Z) : Z :=
  match extents, p with
  | e :: _, y :: _ => e * y
  | _, _ => sizeof_T
  end.

(** A row-major layout without overlap: every extent is positive and
    each pitch is at least the span of the sub-tensor it steps over. *)
Fixpoint row_major (extents p : list Z) (sizeof_T : Z) : Prop :=
  match extents, p with
  | [], [] => 0 < sizeof_T
  | e :: extents', y :: p' =>
      0 < e /\ span extents' p' sizeof_T <= y /\ row_major extents' p' sizeof_T
  | _, _ => False
  end.

(** Coordinates within the extents. *)
Definition in_bounds (c extents : list Z) : Prop :=
  Forall2 (fun x e => 0 <= x < e) c extents.

(** The stride specification keeps the documented order: the run-time
    markers occupy the leading slots. *)
Definition runtime_first (Strides : list Z) : Prop :=
  forall i, (i < kVariableStrides Strides)%nat -> Strides !!! i = -1.

(** ** [nvcv/Size.hpp] *)

Module Size.

Record Size2D : Type := MkSize2D {
  w : Z;
  h : Z
}.

(** [std::tie(a.w, a.h)] *)
Definition tie (a : Size2D) : Z * Z := (w a, h a).

(** [operator==] and [operator<] of [std::tuple<const int &, const int &>]:
    component-wise equality and lexicographic order. *)
Definition tuple_eq (a b : Z * Z) : bool :=
  bool_decide (a.1 = b.1) && bool_decide (a.2 = b.2).

Definition tuple_lt (a b : Z * Z) : bool :=
  if bool_decide (a.1 < b.1) then true
  else if bool_decide (b.1 < a.1) then false
  else bool_decide (a.2 < b.2).

(** [operator==(const Size2D &, const Size2D &)] *)
Definition eq (a b : Size2D) : bool := tuple_eq (tie a) (tie b).

(** [operator!=] *)
Definition ne (a b : Size2D) : bool := negb (eq a b).

(** [operator<] *)
Definition lt (a b : Size2D) : bool := tuple_lt (tie a) (tie b).

End Size.

(** ** [cvcuda/priv/OpOSD.cpp] *)

Module OSD.

Inductive Status : Type :=
  | ERROR_INVALID_ARGUMENT.

Record Exception : Type := MkException {
  code : Status;
  what : string
}.

(** How a call of [OSD::operator()] ends: it returns, it throws an
    [nvcv::Exception] of its own, or [NVCV_CHECK_THROW] throws on the
    error code [e] of the legacy operator. *)
Inductive outcome (ErrorCode : Type) : Type :=
  | returned
  | thrown (e : Exception)
  | check_thrown (e : ErrorCode).
Arguments returned {ErrorCode}.
Arguments thrown {ErrorCode} e.
Arguments check_thrown {ErrorCode} e.

(** [OSD::operator()(stream, in, out, elements)].  The collaborators are
    parameters: [exportData] is [Tensor::exportData<TensorDataStridedCuda>],
    [infer] the legacy operator, and [failed] tells whether
    [NVCV_CHECK_THROW] throws on an error code. *)
Definition call {Tensor TensorData Elements Stream ErrorCode : Type}
    (exportData : Tensor -> option TensorData)
    (infer : TensorData -> TensorData -> Elements -> Stream -> ErrorCode)
    (failed : ErrorCode -> bool)
    (stream : Stream) (in_ out : Tensor) (elements : Elements)
  : outcome ErrorCode :=
  match exportData in_ with
  | None =>
      thrown (MkException ERROR_INVALID_ARGUMENT
                "Input must be cuda-accessible, pitch-linear tensor")
  | Some inData =>
      match exportData out with
      | None =>
          thrown (MkException ERROR_INVALID_ARGUMENT
                    "Output must be cuda-accessible, pitch-linear tensor")
      | Some outData =>
          let e := infer inData outData elements stream in
          if failed e then check_thrown e else returned
      end
  end.

End OSD.

(** ** Sanity checks of the embedding *)

Example ptr_4d (P : Z) :
  ptr [-1; -1; -1; 4] (MkWrap P [6144; 1536; 16]) [2; 3; 1; 0] = Some (P + 16912).
Proof. reflexivity. Qed.

Example tensor_ok :
  TensorWrap_tensor [-1; -1; 4] (MkTensor 100 [6144; 1536; 4; 1])
  = Ok (MkWrap 100 [6144; 1536]).
Proof. reflexivity. Qed.

Example tensor_mismatch :
  TensorWrap_tensor [-1; 4] (MkTensor 100 [640; 3])
  = Abort (assert_const_stride 1).
Proof. reflexivity. Qed.

Example tensor_low :
  TensorWrap_tensor [-1; 4] (MkTensor 100 [-2147483649; 4])
  = Ok (MkWrap 100 [2147483647]).
Proof. reflexivity. Qed.

Example tensor_misordered :
  TensorWrap_tensor [4; -1] (MkTensor 100 [4; 99999999999])
  = Ok (MkWrap 100 [0]).
Proof. reflexivity. Qed.

Example ptr_overflow :
  ptr (Tensor1DWrap 4) (TensorWrap_default (Tensor1DWrap 4)) [2 ^ 30] = Some 0.
Proof. reflexivity. Qed.

(** * Properties *)

(** ** Two's-complement arithmetic *)

Module IntFacts.

Lemma modulus_pos : 0 < Int.modulus.
Proof. reflexivity. Qed.

Lemma wrap_range z : Int.in_range (Int.wrap z).
Proof.
  unfold Int.in_range, Int.wrap.
  pose proof (Z.mod_pos_bound (z - Int.min) Int.modulus modulus_pos) as H.
  unfold Int.min, Int.max, Int.modulus in *. lia.
Qed.

Lemma wrap_small z : Int.in_range z -> Int.wrap z = z.
Proof.
  unfold Int.in_range, Int.wrap. intros H.
  rewrite Z.mod_small; [lia |].
  unfold Int.min, Int.max, Int.modulus in *. lia.
Qed.

Lemma wrap_congr a b :
  a mod Int.modulus = b mod Int.modulus -> Int.wrap a = Int.wrap b.
Proof.
  intros H. unfold Int.wrap. f_equal.
  rewrite <- (Zminus_mod_idemp_l a), <- (Zminus_mod_idemp_l b).
  now rewrite H.
Qed.

Lemma wrap_mod z : Int.wrap z mod Int.modulus = z mod Int.modulus.
Proof.
  unfold Int.wrap.
  rewrite Zplus_mod_idemp_l. f_equal. lia.
Qed.

Lemma wrap_idem z : Int.wrap (Int.wrap z) = Int.wrap z.
Proof. apply wrap_congr, wrap_mod. Qed.

Lemma add_mul_wrap a x y :
  Int.add (Int.wrap a) (Int.mul x y) = Int.wrap (a + x * y).
Proof.
  unfold Int.add, Int.mul. apply wrap_congr.
  rewrite Zplus_mod, !wrap_mod, <- Zplus_mod. reflexivity.
Qed.

Lemma wrap_wrap_add a b : Int.wrap (Int.wrap a + b) = Int.wrap (a + b).
Proof.
  apply wrap_congr.
  rewrite Zplus_mod, wrap_mod, <- Zplus_mod. reflexivity.
Qed.

End IntFacts.

(** ** Sums and loops *)

Lemma Zsum_app l1 l2 : Zsum (l1 ++ l2) = Zsum l1 + Zsum l2.
Proof. induction l1 as [|x l1 IH]; simpl; [reflexivity | rewrite IH; lia]. Qed.

Lemma Zsum_cons x l : Zsum (x :: l) = x + Zsum l.
Proof. reflexivity. Qed.

Lemma Zsum_ext (f g : nat -> Z) (l : list nat) :
  (forall i, i ∈ l -> f i = g i) -> Zsum (f <$> l) = Zsum (g <$> l).
Proof.
  induction l as [|i l IH]; intros H; [reflexivity |].
  rewrite !fmap_cons, !Zsum_cons, (H i) by set_solver.
  rewrite IH; [reflexivity |].
  intros j Hj. apply H. set_solver.
Qed.

Lemma Zsum_zero (f : nat -> Z) (l : list nat) :
  (forall i, i ∈ l -> f i = 0) -> Zsum (f <$> l) = 0.
Proof.
  induction l as [|i l IH]; intros H; [reflexivity |].
  rewrite fmap_cons, Zsum_cons, (H i) by set_solver.
  rewrite IH; [reflexivity |].
  intros j Hj. apply H. set_solver.
Qed.

(** An accumulation loop in [int] arithmetic computes the reduced sum. *)
Lemma offset_loop (f g : nat -> Z) (lo hi : nat) (a : Z) :
  for_loop lo hi (fun i offset => Int.add offset (Int.mul (f i) (g i))) (Int.wrap a)
  = Int.wrap (a + Zsum ((fun i => f i * g i) <$> seq lo (hi - lo))).
Proof.
  unfold for_loop. generalize (hi - lo)%nat as n. intros n.
  revert lo a. induction n as [|n IH]; intros lo a.
  - simpl. f_equal. lia.
  - rewrite <- cons_seq, fmap_cons, Zsum_cons. simpl foldl.
    rewrite IntFacts.add_mul_wrap, IH. f_equal. lia.
Qed.

Lemma kVariableStrides_le Strides :
  (kVariableStrides Strides <= kNumDimensions Strides)%nat.
Proof.
  unfold kVariableStrides, kNumDimensions.
  induction Strides as [|s l IH]; simpl; [lia |].
  destruct (decide (s = kRuntime)); lia.
Qed.

(** The two loops of [doGetPtr] together compute the sum over all the
    supplied coordinates, reduced to [int]. *)
Lemma doGetPtr_offset Strides this c :
  (length c <= kNumDimensions Strides)%nat ->
  doGetPtr Strides this c
  = Some (m_data this + Int.wrap (byte_offset Strides this c)).
Proof.
  intros Hlen. pose proof (kVariableStrides_le Strides) as Hk. unfold doGetPtr.
  destruct (decide (length c <= kNumDimensions Strides)%nat) as [_|]; [| lia].
  cbv zeta. do 2 f_equal.
  change 0 with (Int.wrap 0) at 1.
  rewrite !offset_loop, Z.add_0_l. f_equal.
  unfold byte_offset.
  destruct (decide (length c < kVariableStrides Strides)%nat) as [Hlt|Hge].
  - destruct (decide (length c < kNumDimensions Strides)%nat) as [_|]; [| lia].
    replace (length c - kVariableStrides Strides)%nat with 0%nat by lia.
    simpl. rewrite Z.add_0_r, Nat.sub_0_r.
    apply Zsum_ext. intros i Hi. apply elem_of_seq in Hi.
    unfold stride_at. destruct (decide (i < kVariableStrides Strides)%nat); [reflexivity | lia].
  - assert ((if decide (length c < kNumDimensions Strides)%nat
             then length c else kNumDimensions Strides) = length c) as ->.
    { destruct (decide (length c < kNumDimensions Strides)%nat); lia. }
    rewrite Nat.sub_0_r.
    assert (seq 0 (length c)
            = seq 0 (kVariableStrides Strides)
              ++ seq (kVariableStrides Strides) (length c - kVariableStrides Strides))
      as ->.
    { replace (length c) with
        (kVariableStrides Strides + (length c - kVariableStrides Strides))%nat
        at 1 by lia.
      apply seq_app. }
    rewrite fmap_app, Zsum_app. f_equal.
    + apply Zsum_ext. intros i Hi. apply elem_of_seq in Hi.
      unfold stride_at. destruct (decide (i < kVariableStrides Strides)%nat); [reflexivity | lia].
    + apply Zsum_ext. intros i Hi. apply elem_of_seq in Hi.
      unfold stride_at. destruct (decide (i < kVariableStrides Strides)%nat); [lia | reflexivity].
Qed.

(** Padding the coordinates with trailing zeros leaves the sum unchanged. *)
Lemma byte_offset_pad Strides this c n :
  byte_offset Strides this (c ++ replicate n 0) = byte_offset Strides this c.
Proof.
  unfold byte_offset.
  rewrite length_app, length_replicate, seq_app, fmap_app, Zsum_app, Nat.add_0_l.
  rewrite (Zsum_zero _ (seq (length c) n)), Z.add_0_r.
  - apply Zsum_ext. intros i Hi. apply elem_of_seq in Hi.
    rewrite lookup_total_app_l by lia. reflexivity.
  - intros i Hi. apply elem_of_seq in Hi.
    rewrite lookup_total_app_r by lia.
    rewrite lookup_total_replicate_2 by lia. lia.
Qed.

Lemma TensorWrap_ptr_Some Strides A strides V :
  TensorWrap_ptr Strides A strides = Some V ->
  V = MkWrap A strides /\ length strides = kVariableStrides Strides.
Proof.
  unfold TensorWrap_ptr. destruct (decide _); [| discriminate].
  intros [= <-]. split; [reflexivity | assumption].
Qed.

(** ** Addressing *)

(** C1 (amended): for a view built from base address [A] and run-time
    pitches [strides], and a full tuple of coordinates (one per
    dimension, outermost first), [ptr] returns [A] plus the sum
    [Σ c[i]·S[i]] reduced to 32-bit two's complement, where [S[i]] is the
    stored pitch for [i < kVariableStrides] and the template argument
    otherwise; whenever the sum lies in the [int] range the address is
    [A + Σ c[i]·S[i]] exactly.  The statement holds for every number of
    dimensions, in particular 1 to 4. *)
Theorem ptr_full_offset Strides A strides V c :
  TensorWrap_ptr Strides A strides = Some V ->
  length c = kNumDimensions Strides ->
  ptr Strides V c = Some (A + Int.wrap (byte_offset Strides (MkWrap A strides) c))
  /\ (Int.in_range (byte_offset Strides (MkWrap A strides) c) ->
      ptr Strides V c = Some (A + byte_offset Strides (MkWrap A strides) c)).
Proof.
  intros HV Hlen. apply TensorWrap_ptr_Some in HV as [-> _].
  assert (ptr Strides (MkWrap A strides) c
          = Some (A + Int.wrap (byte_offset Strides (MkWrap A strides) c))) as Hp.
  { unfold ptr. rewrite doGetPtr_offset by lia. reflexivity. }
  split; [exact Hp |].
  intros Hr. rewrite Hp, IntFacts.wrap_small by exact Hr. reflexivity.
Qed.

Lemma ptr_full_offset_witness :
  ptr (Tensor3DWrap 4) (MkWrap 4096 [1228800; 2560]) [1; 2; 3]
  = Some (4096 + 1233932).
Proof.
  refine (proj2 (ptr_full_offset (Tensor3DWrap 4) 4096 [1228800; 2560]
                   (MkWrap 4096 [1228800; 2560]) [1; 2; 3] eq_refl eq_refl) _).
  vm_compute. split; discriminate.
Defined.

(** C1, as stated, fails once the sum leaves the [int] range: a 2-D view
    with a row pitch of 1 MiB addressed at row 2048 has the offset
    [2^31], which [int] arithmetic turns into [-2^31]. *)
Lemma ptr_full_offset_counterexample :
  TensorWrap_ptr (Tensor2DWrap 4) 4294967296 [1048576]
    = Some (MkWrap 4294967296 [1048576])
  /\ Int.in_range 2048 /\ Int.in_range 1048576
  /\ byte_offset (Tensor2DWrap 4) (MkWrap 4294967296 [1048576]) [2048; 0]
     = 2147483648
  /\ ptr (Tensor2DWrap 4) (MkWrap 4294967296 [1048576]) [2048; 0]
     = Some 2147483648
  /\ ptr (Tensor2DWrap 4) (MkWrap 4294967296 [1048576]) [2048; 0]
     <> Some (4294967296
              + byte_offset (Tensor2DWrap 4) (MkWrap 4294967296 [1048576]) [2048; 0]).
Proof.
  repeat split; try (vm_compute; congruence).
Qed.

(** C2: supplying only the leading coordinates gives the same address as
    supplying all of them with the trailing ones zero; the padded
    coordinates add nothing to the byte offset. *)
Theorem ptr_partial_application Strides V c :
  (length c <= kNumDimensions Strides)%nat ->
  (exists p,
      ptr Strides V c = Some p
      /\ ptr Strides V (c ++ replicate (kNumDimensions Strides - length c) 0) = Some p)
  /\ byte_offset Strides V (c ++ replicate (kNumDimensions Strides - length c) 0)
     = byte_offset Strides V c.
Proof.
  intros Hlen. split; [| apply byte_offset_pad].
  exists (m_data V + Int.wrap (byte_offset Strides V c)). unfold ptr.
  rewrite !doGetPtr_offset, byte_offset_pad; [done | | done].
  rewrite length_app, length_replicate. lia.
Qed.

Lemma ptr_partial_application_witness :
  (exists p, ptr (Tensor4DWrap 4) (MkWrap 4096 [6144; 1536; 16]) [2; 3] = Some p
             /\ ptr (Tensor4DWrap 4) (MkWrap 4096 [6144; 1536; 16]) [2; 3; 0; 0] = Some p)
  /\ byte_offset (Tensor4DWrap 4) (MkWrap 4096 [6144; 1536; 16]) [2; 3; 0; 0]
     = byte_offset (Tensor4DWrap 4) (MkWrap 4096 [6144; 1536; 16]) [2; 3].
Proof.
  apply (ptr_partial_application (Tensor4DWrap 4) (MkWrap 4096 [6144; 1536; 16]) [2; 3]).
  vm_compute. lia.
Defined.

(** ** Element access *)

Lemma components_length c : length (components c) = NumElements c.
Proof. destruct c; reflexivity. Qed.

Lemma subscript_ptr Strides V c :
  subscript Strides V c = ptr Strides V (rev (components c)).
Proof. destruct c; reflexivity. Qed.

Lemma Mut_doGetPtr_Base Strides W c :
  Mut.doGetPtr Strides W c = doGetPtr Strides (Base W) c.
Proof.
  unfold Mut.doGetPtr, Mut.const_cast.
  destruct (doGetPtr Strides (Base W) c); reflexivity.
Qed.

Lemma Mut_subscript_Base Strides W c :
  Mut.subscript Strides W c = subscript Strides (Base W) c.
Proof. destruct c; apply Mut_doGetPtr_Base. Qed.

(** C5 (amended): for an N-component coordinate vector on an
    N-dimensional view, [operator[]] (of the constant and of the mutable
    view) designates the location that [ptr] yields for the components
    taken in reversed order, [x] addressing the innermost dimension (for
    N = 4, [V[c]] is [V.ptr(c.w, c.z, c.y, c.x)]); its byte offset from
    the base address is [Σ coordinate[i]·stride[i]] over those
    outermost-first coordinates reduced to 32-bit two's complement, and
    is exactly that sum whenever the sum lies in the [int] range. *)
Theorem subscript_reversed_components Strides V c :
  NumElements c = kNumDimensions Strides ->
  subscript Strides V c = ptr Strides V (rev (components c))
  /\ Mut.subscript Strides (MkMutWrap V) c = ptr Strides V (rev (components c))
  /\ (forall x y z w, c = dim_int4 x y z w ->
        subscript Strides V c = ptr Strides V [w; z; y; x])
  /\ subscript Strides V c
     = Some (m_data V + Int.wrap (byte_offset Strides V (rev (components c))))
  /\ (Int.in_range (byte_offset Strides V (rev (components c))) ->
      subscript Strides V c
      = Some (m_data V + byte_offset Strides V (rev (components c)))).
Proof.
  intros Hn.
  assert (subscript Strides V c
          = Some (m_data V + Int.wrap (byte_offset Strides V (rev (components c)))))
    as Hs.
  { rewrite subscript_ptr. unfold ptr. apply doGetPtr_offset.
    rewrite length_rev, components_length. lia. }
  repeat split.
  - apply subscript_ptr.
  - rewrite Mut_subscript_Base. apply subscript_ptr.
  - intros x y z w ->. reflexivity.
  - exact Hs.
  - intros Hr. rewrite Hs, IntFacts.wrap_small by exact Hr. reflexivity.
Qed.

Lemma subscript_reversed_components_witness :
  subscript (Tensor4DWrap 4) (MkWrap 4096 [6144; 1536; 16]) (dim_int4 0 1 3 2)
  = Some (4096 + 16912).
Proof.
  refine (proj2 (proj2 (proj2 (proj2
            (subscript_reversed_components (Tensor4DWrap 4)
               (MkWrap 4096 [6144; 1536; 16]) (dim_int4 0 1 3 2) eq_refl)))) _).
  vm_compute. split; discriminate.
Defined.

(** C5, as stated, fails once the sum leaves the [int] range: row
    [y = 2048] of a 2-D view with a row pitch of 1 MiB lies at offset
    [2^31], but the element designated is the one at offset [-2^31]. *)
Lemma subscript_offset_counterexample :
  NumElements (dim_int2 0 2048) = kNumDimensions (Tensor2DWrap 4)
  /\ Int.in_range 0 /\ Int.in_range 2048 /\ Int.in_range 1048576
  /\ byte_offset (Tensor2DWrap 4) (MkWrap 4294967296 [1048576]) [2048; 0]
     = 2147483648
  /\ subscript (Tensor2DWrap 4) (MkWrap 4294967296 [1048576]) (dim_int2 0 2048)
     = Some (4294967296 - 2147483648)
  /\ subscript (Tensor2DWrap 4) (MkWrap 4294967296 [1048576]) (dim_int2 0 2048)
     <> Some (4294967296
              + byte_offset (Tensor2DWrap 4) (MkWrap 4294967296 [1048576]) [2048; 0]).
Proof.
  repeat split; try (vm_compute; congruence).
Qed.

(** C6: the mutable view's accessors yield the same address as those of
    a constant view with the same base address and run-time pitches, so
    a value written through the mutable view at coordinate [c] is the
    value read back through the constant view at [c]. *)
Theorem write_then_read {T : Type} Strides (W : TensorWrap) (R : ConstTensorWrap)
    (c : list Z) (d : DimType) (v : T) (mem : gmap Z T) :
  m_data (Base W) = m_data R ->
  m_strides (Base W) = m_strides R ->
  (length c <= kNumDimensions Strides)%nat ->
  (NumElements d <= kNumDimensions Strides)%nat ->
  Mut.ptr Strides W c = ptr Strides R c
  /\ Mut.subscript Strides W d = subscript Strides R d
  /\ (exists mem', store mem (Mut.ptr Strides W c) v = Some mem'
                   /\ load mem' (ptr Strides R c) = Some v)
  /\ (exists mem', store mem (Mut.subscript Strides W d) v = Some mem'
                   /\ load mem' (subscript Strides R d) = Some v).
Proof.
  intros Hd Hs Hc Hn.
  assert (Base W = R) as HB.
  { destruct W as [[? ?]], R; simpl in *; congruence. }
  assert (Mut.ptr Strides W c = ptr Strides R c) as Hp.
  { unfold Mut.ptr, ptr. rewrite Mut_doGetPtr_Base, HB. reflexivity. }
  assert (Mut.subscript Strides W d = subscript Strides R d) as Hq.
  { rewrite Mut_subscript_Base, HB. reflexivity. }
  split; [exact Hp |]. split; [exact Hq |]. split.
  - rewrite Hp. unfold ptr. rewrite doGetPtr_offset by exact Hc.
    eexists. split; [reflexivity |]. simpl. apply lookup_insert_eq.
  - rewrite Hq, subscript_ptr. unfold ptr.
    rewrite doGetPtr_offset by (rewrite length_rev, components_length; exact Hn).
    eexists. split; [reflexivity |]. simpl. apply lookup_insert_eq.
Qed.

Lemma write_then_read_witness :
  Mut.ptr (Tensor2DWrap 4) (MkMutWrap (MkWrap 4096 [640])) [5; 10]
  = ptr (Tensor2DWrap 4) (MkWrap 4096 [640]) [5; 10]
  /\ Mut.subscript (Tensor2DWrap 4) (MkMutWrap (MkWrap 4096 [640])) (dim_int2 10 5)
     = subscript (Tensor2DWrap 4) (MkWrap 4096 [640]) (dim_int2 10 5)
  /\ (exists mem',
        store (∅ : gmap Z nat)
          (Mut.ptr (Tensor2DWrap 4) (MkMutWrap (MkWrap 4096 [640])) [5; 10]) 7%nat
        = Some mem'
        /\ load mem' (ptr (Tensor2DWrap 4) (MkWrap 4096 [640]) [5; 10]) = Some 7%nat)
  /\ (exists mem',
        store (∅ : gmap Z nat)
          (Mut.subscript (Tensor2DWrap 4) (MkMutWrap (MkWrap 4096 [640])) (dim_int2 10 5))
          7%nat
        = Some mem'
        /\ load mem' (subscript (Tensor2DWrap 4) (MkWrap 4096 [640]) (dim_int2 10 5))
           = Some 7%nat).
Proof.
  apply (write_then_read (Tensor2DWrap 4) (MkMutWrap (MkWrap 4096 [640]))
           (MkWrap 4096 [640]) [5; 10] (dim_int2 10 5) 7%nat ∅);
    [reflexivity | reflexivity | vm_compute; lia | vm_compute; lia].
Defined.

(** ** Concrete scenarios *)

(** C7: a 4-D view over 4-byte elements with pitches (run-time,
    run-time, run-time, 4), built from base address [P] and run-time
    pitches (6144, 1536, 16), addresses coordinate (2, 3, 1, 0) at
    [P + 16912]. *)
Theorem ptr_4d_scenario (P : Z) :
  Tensor4DWrap 4 = [-1; -1; -1; 4]
  /\ TensorWrap_ptr (Tensor4DWrap 4) P [6144; 1536; 16]
     = Some (MkWrap P [6144; 1536; 16])
  /\ ptr (Tensor4DWrap 4) (MkWrap P [6144; 1536; 16]) [2; 3; 1; 0]
     = Some (P + 16912)
  /\ 2 * 6144 + 3 * 1536 + 1 * 16 + 0 * 4 = 16912.
Proof. repeat split. Qed.

(** C8: the image constructor is available exactly for two dimensions
    with one run-time pitch; for the 2-D view over 4-byte elements it
    captures the base pointer and the row pitch of plane 0, and with a row
    pitch of 640 the view addresses (5, 10) at [basePtr + 3240]. *)
Theorem image_ctor_scenario :
  (forall Strides image,
      is_Some (TensorWrap_image Strides image)
      <-> kNumDimensions Strides = 2%nat /\ kVariableStrides Strides = 1%nat)
  /\ (forall image,
        TensorWrap_image (Tensor2DWrap 4) image
        = Some (MkWrap (plane_basePtr (plane image 0)) [rowStride (plane image 0)]))
  /\ (forall base rest,
        let image := MkImage 1 (fun p => if decide (p = 0%nat)
                                         then MkPlane base 640 else rest p) in
        exists V, TensorWrap_image (Tensor2DWrap 4) image = Some V
                  /\ m_data V = base
                  /\ m_strides V = [640]
                  /\ ptr (Tensor2DWrap 4) V [5; 10] = Some (base + 3240))
  /\ 5 * 640 + 10 * 4 = 3240.
Proof.
  split; [| split; [| split]].
  - intros Strides image. unfold TensorWrap_image.
    destruct (decide _) as [Hy|Hn]; split.
    + intros _. tauto.
    + intros _. eexists. reflexivity.
    + intros [? [=]].
    + intros H. tauto.
  - intros image. reflexivity.
  - intros base rest image. eexists. repeat split.
  - reflexivity.
Qed.

(** C10 (amended): a default-constructed view has a null base address
    and all stored run-time pitches zero; [ptr()] is the null pointer and
    [ptr(c0, ..., ck)] is the null address moved by the [int] offset
    that accumulates, in 32-bit two's complement, the contributions
    [c[i]·Strides[i]] of the dimensions [i >= kVariableStrides] only (as
    a 64-bit pointer, that offset modulo [2^64]); it is the null address
    plus exactly the sum of those contributions whenever the sum lies in
    the [int] range. *)
Theorem default_view_ptr Strides :
  m_data (TensorWrap_default Strides) = nullptr
  /\ length (m_strides (TensorWrap_default Strides)) = kVariableStrides Strides
  /\ (forall s, s ∈ m_strides (TensorWrap_default Strides) -> s = 0)
  /\ Base (Mut.TensorWrap_default Strides) = TensorWrap_default Strides
  /\ ptr Strides (TensorWrap_default Strides) [] = Some nullptr
  /\ (forall c, (length c <= kNumDimensions Strides)%nat ->
        ptr Strides (TensorWrap_default Strides) c
        = Some (nullptr + Int.wrap (constant_offset Strides c)))
  /\ (forall c, (length c <= kNumDimensions Strides)%nat ->
        Int.in_range (constant_offset Strides c) ->
        ptr Strides (TensorWrap_default Strides) c
        = Some (nullptr + constant_offset Strides c))
  /\ (forall c, (length c <= kNumDimensions Strides)%nat ->
        exists p, ptr Strides (TensorWrap_default Strides) c = Some p
                  /\ pointer_bits p = Int.wrap (constant_offset Strides c) mod 2 ^ 64).
Proof.
  split; [reflexivity |]. split; [apply length_replicate |].
  split; [intros s Hs; apply elem_of_replicate in Hs; tauto |].
  split; [reflexivity |].
  assert (forall c, (length c <= kNumDimensions Strides)%nat ->
            ptr Strides (TensorWrap_default Strides) c
            = Some (nullptr + Int.wrap (constant_offset Strides c))) as Hc.
  { intros c Hlen. unfold ptr. rewrite doGetPtr_offset by exact Hlen.
    do 3 f_equal. unfold byte_offset, constant_offset.
    destruct (decide (length c <= kVariableStrides Strides)%nat) as [Hle|Hgt].
    - replace (length c - kVariableStrides Strides)%nat with 0%nat by lia.
      apply Zsum_zero. intros i Hi. apply elem_of_seq in Hi.
      unfold stride_at. destruct (decide _); [| lia]. simpl.
      rewrite lookup_total_replicate_2 by lia. lia.
    - assert (seq 0 (length c)
              = seq 0 (kVariableStrides Strides)
                ++ seq (kVariableStrides Strides) (length c - kVariableStrides Strides))
        as ->.
      { replace (length c) with
          (kVariableStrides Strides + (length c - kVariableStrides Strides))%nat
          at 1 by lia.
        apply seq_app. }
      rewrite fmap_app, Zsum_app, Zsum_zero.
      + rewrite Z.add_0_l. apply Zsum_ext. intros i Hi. apply elem_of_seq in Hi.
        unfold stride_at. destruct (decide _); [lia | reflexivity].
      + intros i Hi. apply elem_of_seq in Hi.
        unfold stride_at. destruct (decide _); [| lia]. simpl.
        rewrite lookup_total_replicate_2 by lia. lia. }
  split; [rewrite Hc by (simpl; lia); reflexivity |].
  split; [exact Hc |]. split.
  - intros c Hlen Hr. rewrite Hc, IntFacts.wrap_small by assumption. reflexivity.
  - intros c Hlen. exists (nullptr + Int.wrap (constant_offset Strides c)).
    split; [apply Hc; exact Hlen |].
    unfold pointer_bits, nullptr. rewrite Z.add_0_l. reflexivity.
Qed.

Lemma default_view_ptr_witness :
  ptr (Tensor4DWrap 4) (TensorWrap_default (Tensor4DWrap 4)) [7; 8; 9; 5]
  = Some (nullptr + 20)
  /\ (exists p,
        ptr (Tensor1DWrap 4) (TensorWrap_default (Tensor1DWrap 4)) [-1] = Some p
        /\ pointer_bits p = Int.wrap (constant_offset (Tensor1DWrap 4) [-1]) mod 2 ^ 64).
Proof.
  split.
  - refine (proj1 (proj2 (proj2 (proj2 (proj2 (proj2 (proj2
              (default_view_ptr (Tensor4DWrap 4))))))))
              [7; 8; 9; 5] _ _).
    + vm_compute. lia.
    + vm_compute. split; discriminate.
  - apply (proj2 (proj2 (proj2 (proj2 (proj2 (proj2 (proj2
             (default_view_ptr (Tensor1DWrap 4))))))))
             [-1]).
    vm_compute. lia.
Defined.

(** C10, as stated, fails once the constant contributions leave the
    [int] range: on the default 1-D view over 4-byte elements the
    coordinate [2^30] contributes [2^32], but the address returned is the
    null address itself. *)
Lemma default_view_ptr_counterexample :
  kNumDimensions (Tensor1DWrap 4) = 1%nat
  /\ Int.in_range 1073741824
  /\ constant_offset (Tensor1DWrap 4) [1073741824] = 4294967296
  /\ ptr (Tensor1DWrap 4) (TensorWrap_default (Tensor1DWrap 4)) [1073741824]
     = Some nullptr
  /\ ptr (Tensor1DWrap 4) (TensorWrap_default (Tensor1DWrap 4)) [1073741824]
     <> Some (nullptr + constant_offset (Tensor1DWrap 4) [1073741824]).
Proof.
  repeat split; try (vm_compute; congruence).
Qed.

(** ** Construction from a tensor descriptor *)

Section TensorCtor.
Variable Strides : list Z.
Variable tensor : ITensorDataStridedCuda.

Lemma tensor_step_cases i this :
  tensor_step Strides tensor i this
  = if slot_checked Strides tensor i
    then Ok (MkWrap (m_data this) (slot_stored Strides tensor (m_strides this) i))
    else Abort (slot_assertion Strides i).
Proof.
  unfold tensor_step, slot_checked, slot_assertion, slot_stored.
  destruct (decide (Strides !!! i <> -1)) as [Hc|Hr].
  - destruct (decide (Strides !!! i = -1 /\ _)) as [[? _]|_]; [congruence |].
    destruct (bool_decide _); [destruct this |]; reflexivity.
  - destruct (decide (i < kVariableStrides Strides)%nat) as [Hi|Hi].
    + destruct (decide (Strides !!! i = -1 /\ _)) as [_|Hn]; [| lia].
      destruct (bool_decide _); reflexivity.
    + destruct (decide (Strides !!! i = -1 /\ _)) as [[_ ?]|_]; [lia |].
      destruct this; reflexivity.
Qed.

Lemma loop_abort e l : foldl (fun st i => tensor_iter Strides tensor i st) (Abort e) l = Abort e.
Proof. induction l as [|i l IH]; [reflexivity | exact IH]. Qed.

(** The loop stops at the first slot whose check fails. *)
Lemma loop_result l this :
  foldl (fun st i => tensor_iter Strides tensor i st) (Ok this) l
  = match find (fun i => negb (slot_checked Strides tensor i)) l with
    | Some j => Abort (slot_assertion Strides j)
    | None => Ok (MkWrap (m_data this)
                    (foldl (slot_stored Strides tensor) (m_strides this) l))
    end.
Proof.
  revert this. induction l as [|i l IH]; intros this.
  - destruct this; reflexivity.
  - change (foldl (fun st i => tensor_iter Strides tensor i st) (Ok this) (i :: l))
      with (foldl (fun st i => tensor_iter Strides tensor i st)
              (tensor_step Strides tensor i this) l).
    rewrite tensor_step_cases. simpl find.
    destruct (slot_checked Strides tensor i); simpl negb; cbv iota.
    + rewrite IH. reflexivity.
    + apply loop_abort.
Qed.

Lemma stored_length l strides :
  length (foldl (slot_stored Strides tensor) strides l) = length strides.
Proof.
  revert strides. induction l as [|i l IH]; intros strides; [reflexivity |].
  simpl. rewrite IH. unfold slot_stored.
  destruct (decide _); [apply length_insert | reflexivity].
Qed.

(** After the first [n] iterations, slot [i] of the storage holds the
    narrowed descriptor stride if iteration [i] stored one, and its
    initial value otherwise. *)
Lemma stored_lookup n strides i :
  (i < length strides)%nat ->
  foldl (slot_stored Strides tensor) strides (seq 0 n) !!! i
  = if decide ((i < n)%nat /\ Strides !!! i = -1 /\ (i < kVariableStrides Strides)%nat)
    then Int.wrap (stride tensor i)
    else strides !!! i.
Proof.
  intros Hi. induction n as [|n IH].
  - destruct (decide _) as [[? _]|_]; [lia | reflexivity].
  - rewrite seq_S, foldl_snoc. simpl.
    unfold slot_stored at 1.
    destruct (decide (Strides !!! n = -1 /\ (n < kVariableStrides Strides)%nat))
      as [[Hn1 Hn2]|Hn].
    + destruct (decide (i = n)) as [->|Hne].
      * rewrite list_lookup_total_insert_eq by (rewrite stored_length; lia).
        destruct (decide ((n < S n)%nat /\ _)) as [_|Hc]; [reflexivity | lia].
      * rewrite list_lookup_total_insert_ne by lia. rewrite IH.
        destruct (decide ((i < n)%nat /\ _)) as [[? ?]|H1];
          destruct (decide ((i < S n)%nat /\ _)) as [[? ?]|H2];
          try reflexivity; lia.
    + rewrite IH.
      destruct (decide ((i < n)%nat /\ _)) as [[? ?]|H1];
        destruct (decide ((i < S n)%nat /\ _)) as [[? [? ?]]|H2];
        try reflexivity; try lia.
      assert (i = n) as -> by lia. tauto.
Qed.

Lemma TensorWrap_tensor_result :
  TensorWrap_tensor Strides tensor
  = if bool_decide (kNumDimensions Strides <= rank tensor)%nat then
      match find (fun i => negb (slot_checked Strides tensor i))
              (seq 0 (kNumDimensions Strides)) with
      | Some j => Abort (slot_assertion Strides j)
      | None => Ok (MkWrap (basePtr tensor)
                      (foldl (slot_stored Strides tensor)
                         (replicate (kVariableStrides Strides) 0)
                         (seq 0 (kNumDimensions Strides))))
      end
    else Abort assert_rank.
Proof.
  unfold TensorWrap_tensor.
  destruct (bool_decide (kNumDimensions Strides <= rank tensor)%nat);
    [| reflexivity].
  simpl. unfold for_loop. rewrite Nat.sub_0_r.
  exact (loop_result (seq 0 (kNumDimensions Strides))
           (MkWrap (basePtr tensor) (replicate (kVariableStrides Strides) 0))).
Qed.

(** A slot whose check fails makes the constructor abort. *)
Lemma TensorWrap_tensor_abort i :
  (i < kNumDimensions Strides)%nat ->
  slot_checked Strides tensor i = false ->
  exists e, TensorWrap_tensor Strides tensor = Abort e.
Proof.
  intros Hi Hc. rewrite TensorWrap_tensor_result.
  destruct (bool_decide _); [| eexists; reflexivity].
  destruct (find _ _) as [j|] eqn:Hf; [eexists; reflexivity |].
  assert (In i (seq 0 (kNumDimensions Strides))) as Hin by (apply in_seq; lia).
  apply (find_none _ _ Hf) in Hin. rewrite Hc in Hin. discriminate Hin.
Qed.

End TensorCtor.

Lemma foldl_pointwise {A B} (f g : A -> B -> A) (a : A) (l : list B) :
  (forall a i, f a i = g a i) -> foldl f a l = foldl g a l.
Proof.
  intros H. revert a. induction l as [|i l IH]; intros a; [reflexivity |].
  simpl. rewrite H. apply IH.
Qed.

Lemma TensorWrap_tensor_Ok Strides tensor V :
  TensorWrap_tensor Strides tensor = Ok V ->
  (kNumDimensions Strides <= rank tensor)%nat
  /\ (forall i, (i < kNumDimensions Strides)%nat -> slot_checked Strides tensor i = true)
  /\ V = MkWrap (basePtr tensor)
           (foldl (slot_stored Strides tensor)
              (replicate (kVariableStrides Strides) 0)
              (seq 0 (kNumDimensions Strides))).
Proof.
  rewrite TensorWrap_tensor_result.
  destruct (bool_decide _) eqn:Hr; [| discriminate].
  destruct (find _ _) as [j|] eqn:Hf; [discriminate |].
  apply bool_decide_eq_true in Hr.
  intros [= <-]. split; [exact Hr |]. split; [| reflexivity].
  intros i Hi.
  assert (In i (seq 0 (kNumDimensions Strides))) as Hin by (apply in_seq; lia).
  apply (find_none _ _ Hf) in Hin. destruct (slot_checked Strides tensor i); done.
Qed.

Lemma TensorWrap_tensor_succeeds Strides tensor :
  (kNumDimensions Strides <= rank tensor)%nat ->
  (forall i, (i < kNumDimensions Strides)%nat -> slot_checked Strides tensor i = true) ->
  TensorWrap_tensor Strides tensor
  = Ok (MkWrap (basePtr tensor)
          (foldl (slot_stored Strides tensor)
             (replicate (kVariableStrides Strides) 0)
             (seq 0 (kNumDimensions Strides)))).
Proof.
  intros Hr Hall. rewrite TensorWrap_tensor_result.
  rewrite bool_decide_eq_true_2 by exact Hr.
  destruct (find _ _) as [j|] eqn:Hf; [| reflexivity].
  apply find_some in Hf as [Hin Hj]. apply in_seq in Hin.
  rewrite Hall in Hj by lia. discriminate Hj.
Qed.

(** C3 (amended): if the descriptor's stride at some constant slot
    differs from the template argument, constructing the view aborts on
    an assertion; if the descriptor's rank is at least the number of
    dimensions, every constant slot matches and the stride of every
    run-time slot is at most [TypeTraits<int>::max], construction
    succeeds.  The constant pitches are template arguments, outside the
    object: the view produced holds the base address and the run-time
    pitches only, and addresses every dimension [i >= kVariableStrides]
    with [Strides[i]]. *)
Theorem tensor_ctor_constant_strides Strides tensor :
  (forall i, (i < kNumDimensions Strides)%nat ->
             Strides !!! i <> -1 ->
             stride tensor i <> Strides !!! i ->
             exists e, TensorWrap_tensor Strides tensor = Abort e)
  /\ ((kNumDimensions Strides <= rank tensor)%nat ->
      (forall i, (i < kNumDimensions Strides)%nat -> Strides !!! i <> -1 ->
                 stride tensor i = Strides !!! i) ->
      (forall i, (i < kVariableStrides Strides)%nat -> Strides !!! i = -1 ->
                 stride tensor i <= Int.max) ->
      exists V, TensorWrap_tensor Strides tensor = Ok V
                /\ m_data V = basePtr tensor
                /\ length (m_strides V) = kVariableStrides Strides
                /\ (forall i, (kVariableStrides Strides <= i)%nat ->
                              stride_at Strides V i = Strides !!! i)).
Proof.
  split.
  - intros i Hi Hc Hne. apply (TensorWrap_tensor_abort Strides tensor i Hi).
    unfold slot_checked. destruct (decide _); [| done].
    apply bool_decide_eq_false_2, Hne.
  - intros Hr Hconst Hvar. eexists. split.
    + apply TensorWrap_tensor_succeeds; [exact Hr |].
      intros i Hi. unfold slot_checked.
      destruct (decide (Strides !!! i <> -1)) as [Hc|Hc].
      * apply bool_decide_eq_true_2, Hconst; assumption.
      * destruct (decide _); [| reflexivity].
        apply bool_decide_eq_true_2, Hvar; [assumption |].
        destruct (decide (Strides !!! i = -1)); [assumption | contradiction].
    + simpl. split; [reflexivity |]. split.
      * rewrite stored_length. apply length_replicate.
      * intros i Hi. unfold stride_at. destruct (decide _); [lia | reflexivity].
Qed.

Lemma tensor_ctor_constant_strides_witness :
  (exists e, TensorWrap_tensor (Tensor2DWrap 4) (MkTensor 4096 [640; 3]) = Abort e)
  /\ (exists V, TensorWrap_tensor (Tensor2DWrap 4) (MkTensor 4096 [640; 4]) = Ok V
                /\ m_data V = 4096
                /\ length (m_strides V) = 1%nat
                /\ (forall i, (1 <= i)%nat ->
                              stride_at (Tensor2DWrap 4) V i = Tensor2DWrap 4 !!! i)).
Proof.
  split.
  - apply (proj1 (tensor_ctor_constant_strides (Tensor2DWrap 4) (MkTensor 4096 [640; 3]))
             1%nat); vm_compute; [lia | discriminate | discriminate].
  - apply (proj2 (tensor_ctor_constant_strides (Tensor2DWrap 4) (MkTensor 4096 [640; 4]))).
    + vm_compute. lia.
    + intros [|[|i]] Hi Hc; vm_compute in Hc |- *;
        [exfalso; apply Hc; reflexivity | reflexivity | reflexivity].
    + intros [|i] Hi Hc; [vm_compute; discriminate |].
      unfold Tensor2DWrap, kVariableStrides in Hi. simpl in Hi. lia.
Defined.

(** C3, as stated, fails: with every constant slot matching, the
    constructor still aborts when a run-time slot's stride exceeds
    [TypeTraits<int>::max]. *)
Lemma tensor_ctor_constant_match_counterexample :
  kNumDimensions (Tensor2DWrap 4) = 2%nat
  /\ Tensor2DWrap 4 !!! 0%nat = -1
  /\ Tensor2DWrap 4 !!! 1%nat = 4
  /\ rank (MkTensor 4096 [2147483648; 4]) = 2%nat
  /\ stride (MkTensor 4096 [2147483648; 4]) 1 = 4
  /\ TensorWrap_tensor (Tensor2DWrap 4) (MkTensor 4096 [2147483648; 4])
     = Abort (assert_stride_max 0).
Proof. repeat split. Qed.

(** C4 (amended): for a run-time slot [i < kVariableStrides], the
    constructor asserts that the descriptor's stride at axis [i] is at
    most [TypeTraits<int>::max], so a larger stride aborts; no lower
    bound is asserted.  On success the stored pitch at slot [i] is the
    descriptor's stride converted to [int], which is the descriptor's
    stride exactly whenever that is at least the least [int]. *)
Theorem tensor_ctor_runtime_stride Strides tensor i :
  Strides !!! i = -1 ->
  (i < kVariableStrides Strides)%nat ->
  (Int.max < stride tensor i ->
   exists e, TensorWrap_tensor Strides tensor = Abort e)
  /\ (forall V, TensorWrap_tensor Strides tensor = Ok V ->
        stride tensor i <= Int.max
        /\ m_strides V !!! i = Int.wrap (stride tensor i)
        /\ (Int.min <= stride tensor i -> m_strides V !!! i = stride tensor i)).
Proof.
  intros Hrt Hi. pose proof (kVariableStrides_le Strides) as Hk.
  assert (slot_checked Strides tensor i = bool_decide (stride tensor i <= Int.max))
    as Hchk.
  { unfold slot_checked. destruct (decide (Strides !!! i <> -1)); [contradiction |].
    destruct (decide _); [reflexivity | lia]. }
  split.
  - intros Hbig. apply (TensorWrap_tensor_abort Strides tensor i); [lia |].
    rewrite Hchk. apply bool_decide_eq_false_2. lia.
  - intros V HV. apply TensorWrap_tensor_Ok in HV as (_ & Hall & ->).
    assert (stride tensor i <= Int.max) as Hle.
    { specialize (Hall i ltac:(lia)). rewrite Hchk in Hall.
      apply bool_decide_eq_true in Hall. exact Hall. }
    assert (foldl (slot_stored Strides tensor) (replicate (kVariableStrides Strides) 0)
              (seq 0 (kNumDimensions Strides)) !!! i
            = Int.wrap (stride tensor i)) as Hst.
    { rewrite stored_lookup by (rewrite length_replicate; lia).
      destruct (decide _) as [_|Hn]; [reflexivity | lia]. }
    split; [exact Hle |]. split; [exact Hst |].
    intros Hlo. simpl. rewrite Hst. apply IntFacts.wrap_small. split; assumption.
Qed.

Lemma tensor_ctor_runtime_stride_witness :
  (exists e, TensorWrap_tensor (Tensor3DWrap 4) (MkTensor 4096 [614400; 4294967296; 4])
             = Abort e)
  /\ m_strides (MkWrap 4096 [614400; 1280]) !!! 1%nat = 1280.
Proof.
  split.
  - apply (proj1 (tensor_ctor_runtime_stride (Tensor3DWrap 4)
                    (MkTensor 4096 [614400; 4294967296; 4]) 1%nat
                    eq_refl ltac:(vm_compute; lia))).
    vm_compute. reflexivity.
  - apply (proj2 (tensor_ctor_runtime_stride (Tensor3DWrap 4)
                    (MkTensor 4096 [614400; 1280; 4]) 1%nat
                    eq_refl ltac:(vm_compute; lia))
             (MkWrap 4096 [614400; 1280]) eq_refl).
    vm_compute. discriminate.
Defined.

(** C4, as stated, fails below the [int] range: the stride
    [-2^31 - 1] passes the only assertion and is stored as [2^31 - 1]. *)
Lemma tensor_ctor_runtime_stride_counterexample :
  Tensor2DWrap 4 !!! 0%nat = -1
  /\ (0 < kVariableStrides (Tensor2DWrap 4))%nat
  /\ stride (MkTensor 4096 [-2147483649; 4]) 0 = -2147483649
  /\ ~ Int.in_range (-2147483649)
  /\ TensorWrap_tensor (Tensor2DWrap 4) (MkTensor 4096 [-2147483649; 4])
     = Ok (MkWrap 4096 [2147483647])
  /\ m_strides (MkWrap 4096 [2147483647]) !!! 0%nat
     <> stride (MkTensor 4096 [-2147483649; 4]) 0.
Proof.
  split; [reflexivity |]. split; [vm_compute; lia |]. split; [reflexivity |].
  split; [intros [H _]; vm_compute in H; apply H; reflexivity |].
  split; [reflexivity | vm_compute; discriminate].
Qed.

(** C9: for a slot [i >= kVariableStrides] marked run-time, the
    constructor neither asserts on nor stores the descriptor's stride at
    axis [i]: its outcome is the same whatever that stride is, it never
    aborts on an assertion about slot [i], and the view's storage has no
    entry for slot [i]. *)
Theorem tensor_ctor_misordered_slot Strides tensor i v :
  Strides !!! i = -1 ->
  (kVariableStrides Strides <= i)%nat ->
  TensorWrap_tensor Strides
    (MkTensor (basePtr tensor) (<[i := v]> (tensor_strides tensor)))
  = TensorWrap_tensor Strides tensor
  /\ TensorWrap_tensor Strides tensor <> Abort (assert_stride_max i)
  /\ TensorWrap_tensor Strides tensor <> Abort (assert_const_stride i)
  /\ (forall V, TensorWrap_tensor Strides tensor = Ok V ->
                (length (m_strides V) <= i)%nat).
Proof.
  intros Hrt Hi.
  assert (slot_checked Strides tensor i = true) as Hchk.
  { unfold slot_checked. destruct (decide (Strides !!! i <> -1)); [contradiction |].
    destruct (decide _); [lia | reflexivity]. }
  split; [| split; [| split]].
  - unfold TensorWrap_tensor, rank. simpl tensor_strides. rewrite length_insert.
    destruct (NVCV_ASSERT _ _); [| reflexivity]. simpl.
    unfold for_loop. apply foldl_pointwise. intros [this|e] j; [| reflexivity].
    unfold tensor_iter. simpl. unfold tensor_step.
    assert (j <> i -> stride (MkTensor (basePtr tensor) (<[i := v]> (tensor_strides tensor))) j
                      = stride tensor j) as Hj.
    { intros Hne. unfold stride. simpl.
      apply list_lookup_total_insert_ne. congruence. }
    destruct (decide (Strides !!! j <> -1)) as [Hc|Hc].
    + rewrite Hj by congruence. reflexivity.
    + destruct (decide (j < kVariableStrides Strides)%nat); [| reflexivity].
      rewrite Hj by lia. reflexivity.
  - rewrite TensorWrap_tensor_result. destruct (bool_decide _); [| discriminate].
    destruct (find _ _) as [j|] eqn:Hf; [| discriminate].
    apply find_some in Hf as [_ Hj]. unfold slot_assertion.
    destruct (decide _); [discriminate |].
    intros [= ->]. rewrite Hchk in Hj. discriminate Hj.
  - rewrite TensorWrap_tensor_result. destruct (bool_decide _); [| discriminate].
    destruct (find _ _) as [j|] eqn:Hf; [| discriminate].
    unfold slot_assertion. destruct (decide _) as [Hc|Hc]; [| discriminate].
    intros [= ->]. contradiction.
  - intros V HV. apply TensorWrap_tensor_Ok in HV as (_ & _ & ->). simpl.
    rewrite stored_length, length_replicate. exact Hi.
Qed.

Lemma tensor_ctor_misordered_slot_witness :
  TensorWrap_tensor [4; -1] (MkTensor 4096 [4; 99999999999])
  = TensorWrap_tensor [4; -1] (MkTensor 4096 [4; 640])
  /\ TensorWrap_tensor [4; -1] (MkTensor 4096 [4; 640]) <> Abort (assert_stride_max 1)
  /\ TensorWrap_tensor [4; -1] (MkTensor 4096 [4; 640]) <> Abort (assert_const_stride 1)
  /\ (forall V, TensorWrap_tensor [4; -1] (MkTensor 4096 [4; 640]) = Ok V ->
                (length (m_strides V) <= 1)%nat).
Proof.
  apply (tensor_ctor_misordered_slot [4; -1] (MkTensor 4096 [4; 640]) 1%nat 99999999999).
  - reflexivity.
  - vm_compute. lia.
Defined.

(** * Further properties of the addressing *)

(** ** The sum as a dot product *)

Lemma Zsum_dot (f : nat -> Z) (c : list Z) :
  Zsum ((fun i => (c !!! i) * f i) <$> seq 0 (length c))
  = dot c (f <$> seq 0 (length c)).
Proof.
  revert f. induction c as [|x c IH]; intros f; [reflexivity |].
  change (length (x :: c)) with (S (length c)).
  rewrite <- cons_seq, <- fmap_S_seq, !fmap_cons, Zsum_cons, <- !list_fmap_compose.
  change (dot (x :: c) (f 0%nat :: (f ∘ S <$> seq 0 (length c))))
    with (x * f 0%nat + dot c ((f ∘ S) <$> seq 0 (length c))).
  rewrite <- IH. f_equal.
Qed.

Lemma byte_offset_dot Strides this c :
  byte_offset Strides this c = dot c (pitches Strides this (length c)).
Proof. apply Zsum_dot. Qed.

Lemma dot_app c1 c2 p1 p2 :
  length c1 = length p1 -> dot (c1 ++ c2) (p1 ++ p2) = dot c1 p1 + dot c2 p2.
Proof.
  revert p1. induction c1 as [|x c1 IH]; intros [|y p1] Hl; simplify_eq/=; [lia |].
  rewrite IH by assumption. lia.
Qed.

Lemma dot_take c p : dot c p = dot c (take (length c) p).
Proof.
  revert p. induction c as [|x c IH]; intros [|y p]; simpl; try reflexivity.
  rewrite <- IH. reflexivity.
Qed.

Lemma pitches_length Strides this n : length (pitches Strides this n) = n.
Proof. unfold pitches. rewrite length_fmap. apply length_seq. Qed.

Lemma pitches_lookup Strides this n i :
  (i < n)%nat -> pitches Strides this n !!! i = stride_at Strides this i.
Proof.
  intros Hi. unfold pitches. apply list_lookup_total_correct.
  rewrite list_lookup_fmap, lookup_seq_lt by exact Hi. reflexivity.
Qed.

Lemma pitches_take Strides this n k :
  (k <= n)%nat -> take k (pitches Strides this n) = pitches Strides this k.
Proof.
  intros Hk. unfold pitches. rewrite <- fmap_take. f_equal.
  replace n with (k + (n - k))%nat by lia.
  rewrite seq_app, take_app_length'; [reflexivity | symmetry; apply length_seq].
Qed.

(** Replacing one coordinate changes the sum by the difference times the
    pitch of that dimension. *)
Lemma dot_insert c p i x :
  (i < length c)%nat -> (length c <= length p)%nat ->
  dot (<[i := x]> c) p = dot c p + (x - c !!! i) * (p !!! i).
Proof.
  revert p i. induction c as [|y c IH]; intros [|q p] [|i] Hi Hl; simpl in *; try lia.
  rewrite IH by lia. lia.
Qed.

(** ** Stepping along one dimension *)

(** X1: replacing coordinate [i] by [c[i] + d] moves the address by
    [d] times the pitch of dimension [i], as long as both offsets lie in
    the [int] range. *)
Theorem ptr_step Strides V c i d :
  (i < length c)%nat ->
  (length c <= kNumDimensions Strides)%nat ->
  Int.in_range (byte_offset Strides V c) ->
  Int.in_range (byte_offset Strides V (<[i := c !!! i + d]> c)) ->
  exists p,
    ptr Strides V c = Some p
    /\ ptr Strides V (<[i := c !!! i + d]> c) = Some (p + d * stride_at Strides V i).
Proof.
  intros Hi Hlen Hr1 Hr2.
  exists (m_data V + byte_offset Strides V c). unfold ptr.
  rewrite !doGetPtr_offset by (rewrite ?length_insert; lia).
  rewrite !IntFacts.wrap_small by assumption.
  split; [reflexivity |]. f_equal.
  rewrite !byte_offset_dot, length_insert.
  rewrite dot_insert by (rewrite ?pitches_length; lia).
  rewrite pitches_lookup by lia. lia.
Qed.

Lemma ptr_step_witness :
  exists p,
    ptr (Tensor3DWrap 4) (MkWrap 4096 [307200; 640]) [1; 2; 3] = Some p
    /\ ptr (Tensor3DWrap 4) (MkWrap 4096 [307200; 640]) [1; 7; 3]
       = Some (p + 5 * 640).
Proof.
  apply (ptr_step (Tensor3DWrap 4) (MkWrap 4096 [307200; 640]) [1; 2; 3] 1%nat 5);
    vm_compute; try lia; split; discriminate.
Defined.

(** ** Sub-views *)

Lemma kVariableStrides_runtime_cons Strides :
  kVariableStrides (-1 :: Strides) = S (kVariableStrides Strides).
Proof. reflexivity. Qed.

Lemma stride_at_cons Strides s0 A sts row j :
  stride_at (-1 :: Strides) (MkWrap A (s0 :: sts)) (S j)
  = stride_at Strides (MkWrap row sts) j.
Proof.
  unfold stride_at. rewrite kVariableStrides_runtime_cons.
  destruct (decide (S j < S (kVariableStrides Strides))%nat);
    destruct (decide (j < kVariableStrides Strides)%nat); try lia; reflexivity.
Qed.

Lemma byte_offset_cons Strides s0 A sts row c0 cs :
  byte_offset (-1 :: Strides) (MkWrap A (s0 :: sts)) (c0 :: cs)
  = c0 * s0 + byte_offset Strides (MkWrap row sts) cs.
Proof.
  rewrite !byte_offset_dot. unfold pitches.
  change (length (c0 :: cs)) with (S (length cs)).
  rewrite <- cons_seq, <- fmap_S_seq, fmap_cons, <- list_fmap_compose.
  change (dot (c0 :: cs) (?y :: ?p)) with (c0 * y + dot cs p).
  f_equal.
  f_equal. apply list_fmap_ext. intros _ j _. apply stride_at_cons.
Qed.

(** X2: fixing the outermost coordinate of a view whose first pitch is
    run-time yields the base of a sub-view: the view over the remaining
    dimensions built at [ptr(c0)] with the remaining run-time pitches
    addresses [cs] where the full view addresses [c0, cs], as long as
    the offsets involved lie in the [int] range. *)
Theorem ptr_subview Strides A s0 sts c0 cs :
  (length cs <= kNumDimensions Strides)%nat ->
  Int.in_range (c0 * s0) ->
  Int.in_range (byte_offset Strides (MkWrap A sts) cs) ->
  Int.in_range (c0 * s0 + byte_offset Strides (MkWrap A sts) cs) ->
  exists row,
    ptr (-1 :: Strides) (MkWrap A (s0 :: sts)) [c0] = Some row
    /\ row = A + c0 * s0
    /\ ptr (-1 :: Strides) (MkWrap A (s0 :: sts)) (c0 :: cs)
       = ptr Strides (MkWrap row sts) cs.
Proof.
  intros Hlen H0 H1 H01. exists (A + c0 * s0). unfold ptr.
  rewrite !doGetPtr_offset by (unfold kNumDimensions in *; simpl; lia).
  rewrite (byte_offset_cons Strides s0 A sts A c0 []).
  rewrite (byte_offset_cons Strides s0 A sts (A + c0 * s0) c0 cs).
  assert (byte_offset Strides (MkWrap (A + c0 * s0) sts) cs
          = byte_offset Strides (MkWrap A sts) cs) as Hb by reflexivity.
  rewrite Hb.
  change (byte_offset Strides (MkWrap A sts) []) with 0.
  rewrite Z.add_0_r, !IntFacts.wrap_small by assumption.
  split; [reflexivity |]. split; [reflexivity |]. simpl. f_equal. lia.
Qed.

Lemma ptr_subview_witness :
  exists row,
    ptr (Tensor3DWrap 4) (MkWrap 4096 [307200; 640]) [2] = Some row
    /\ row = 4096 + 2 * 307200
    /\ ptr (Tensor3DWrap 4) (MkWrap 4096 [307200; 640]) [2; 5; 10]
       = ptr (Tensor2DWrap 4) (MkWrap row [640]) [5; 10].
Proof.
  apply (ptr_subview (Tensor2DWrap 4) 4096 307200 [640] 2 [5; 10]);
    vm_compute; try lia; split; discriminate.
Defined.

(** ** In-bounds coordinates on a row-major layout *)

Lemma row_major_length extents p sizeof_T :
  row_major extents p sizeof_T -> length extents = length p.
Proof.
  revert p. induction extents as [|e es IH]; intros [|y p] H; simpl in *;
    try contradiction; [reflexivity |].
  f_equal. apply IH. tauto.
Qed.

Lemma row_major_sizeof_pos extents p sizeof_T :
  row_major extents p sizeof_T -> 0 < sizeof_T.
Proof.
  revert p. induction extents as [|e es IH]; intros [|y p] H; simpl in H;
    try contradiction; [exact H |].
  apply (IH p). tauto.
Qed.

(** The offset of in-bounds coordinates is non-negative and leaves room
    for one element before the end of the span. *)
Lemma dot_in_span extents p sizeof_T c :
  row_major extents p sizeof_T -> in_bounds c extents ->
  0 <= dot c p /\ dot c p + sizeof_T <= span extents p sizeof_T.
Proof.
  intros Hrm Hc. revert p Hrm.
  induction Hc as [|x e c es Hx Hc IH]; intros [|y p] Hrm; simpl in *;
    try contradiction; [lia |].
  destruct Hrm as (He & Hy & Hrm). specialize (IH p Hrm).
  pose proof (row_major_sizeof_pos _ _ _ Hrm) as Hsz.
  assert (0 <= x * y) by nia.
  assert (x * y <= (e - 1) * y) by nia.
  lia.
Qed.

Lemma dot_injective extents p sizeof_T c d :
  row_major extents p sizeof_T -> in_bounds c extents -> in_bounds d extents ->
  dot c p = dot d p -> c = d.
Proof.
  intros Hrm Hc. revert d p Hrm.
  induction Hc as [|x e c es Hx Hc IH]; intros d p Hrm Hd Heq.
  - inversion Hd. reflexivity.
  - inversion Hd as [|x' e' d' es' Hx' Hd']; subst.
    destruct p as [|y p]; simpl in Hrm; [contradiction |].
    destruct Hrm as (He & Hy & Hrm). simpl in Heq.
    pose proof (dot_in_span es p sizeof_T c Hrm Hc) as [Hc0 Hc1].
    pose proof (dot_in_span es p sizeof_T d' Hrm Hd') as [Hd0 Hd1].
    pose proof (row_major_sizeof_pos _ _ _ Hrm) as Hsz.
    assert (x = x') as -> by nia.
    f_equal. apply (IH d' p Hrm Hd'). lia.
Qed.

(** X3: on a row-major layout whose span fits the [int] range, the
    address of in-bounds coordinates lies inside the buffer: at a
    non-negative offset that leaves room for one element before the end
    of the outermost span. *)
Theorem ptr_in_buffer Strides V extents sizeof_T c :
  row_major extents (pitches Strides V (kNumDimensions Strides)) sizeof_T ->
  span extents (pitches Strides V (kNumDimensions Strides)) sizeof_T <= Int.max ->
  in_bounds c extents ->
  exists offset,
    ptr Strides V c = Some (m_data V + offset)
    /\ 0 <= offset
    /\ offset + sizeof_T
       <= span extents (pitches Strides V (kNumDimensions Strides)) sizeof_T.
Proof.
  intros Hrm Hspan Hc.
  pose proof (row_major_length _ _ _ Hrm) as Hl. rewrite pitches_length in Hl.
  pose proof (Forall2_length _ _ _ Hc) as Hlc.
  pose proof (dot_in_span _ _ _ _ Hrm Hc) as [H0 H1].
  assert (byte_offset Strides V c
          = dot c (pitches Strides V (kNumDimensions Strides))) as Hb.
  { rewrite byte_offset_dot. f_equal. congruence. }
  pose proof (row_major_sizeof_pos _ _ _ Hrm) as Hsz.
  exists (byte_offset Strides V c). unfold ptr.
  rewrite doGetPtr_offset by lia.
  rewrite IntFacts.wrap_small
    by (rewrite Hb; unfold Int.in_range, Int.min, Int.max in *; lia).
  rewrite Hb. auto.
Qed.

Lemma ptr_in_buffer_witness :
  exists offset,
    ptr (Tensor3DWrap 4) (MkWrap 4096 [307200; 640]) [1; 479; 159]
    = Some (4096 + offset)
    /\ 0 <= offset
    /\ offset + 4 <= 2 * 307200.
Proof.
  apply (ptr_in_buffer (Tensor3DWrap 4) (MkWrap 4096 [307200; 640])
           [2; 480; 160] 4 [1; 479; 159]).
  - vm_compute. repeat split; discriminate.
  - vm_compute. discriminate.
  - repeat constructor; discriminate.
Defined.

(** X4: on such a layout distinct in-bounds coordinates never alias:
    different coordinates have different addresses. *)
Theorem ptr_no_alias Strides V extents sizeof_T c d :
  row_major extents (pitches Strides V (kNumDimensions Strides)) sizeof_T ->
  span extents (pitches Strides V (kNumDimensions Strides)) sizeof_T <= Int.max ->
  in_bounds c extents ->
  in_bounds d extents ->
  c <> d ->
  ptr Strides V c <> ptr Strides V d.
Proof.
  intros Hrm Hspan Hc Hd Hne Heq. apply Hne.
  pose proof (row_major_length _ _ _ Hrm) as Hl. rewrite pitches_length in Hl.
  pose proof (Forall2_length _ _ _ Hc) as Hlc.
  pose proof (Forall2_length _ _ _ Hd) as Hld.
  pose proof (dot_in_span _ _ _ _ Hrm Hc) as [Hc0 Hc1].
  pose proof (dot_in_span _ _ _ _ Hrm Hd) as [Hd0 Hd1].
  assert (forall x, length x = length extents ->
            byte_offset Strides V x
            = dot x (pitches Strides V (kNumDimensions Strides))) as Hb.
  { intros x Hx. rewrite byte_offset_dot. f_equal. congruence. }
  pose proof (row_major_sizeof_pos _ _ _ Hrm) as Hsz.
  unfold ptr in Heq. rewrite !doGetPtr_offset in Heq by lia.
  rewrite !IntFacts.wrap_small in Heq
    by (rewrite Hb by assumption; unfold Int.in_range, Int.min, Int.max in *; lia).
  rewrite !Hb in Heq by assumption.
  apply (dot_injective _ _ _ _ _ Hrm Hc Hd). injection Heq. lia.
Qed.

Lemma ptr_no_alias_witness :
  in_bounds [3; 159] [480; 160]
  /\ in_bounds [4; 0] [480; 160]
  /\ ptr (Tensor2DWrap 4) (MkWrap 4096 [640]) [3; 159]
     <> ptr (Tensor2DWrap 4) (MkWrap 4096 [640]) [4; 0].
Proof.
  assert (in_bounds [3; 159] [480; 160]) as Hc by (repeat constructor; discriminate).
  assert (in_bounds [4; 0] [480; 160]) as Hd by (repeat constructor; discriminate).
  split; [exact Hc |]. split; [exact Hd |].
  apply (ptr_no_alias (Tensor2DWrap 4) (MkWrap 4096 [640]) [480; 160] 4
           [3; 159] [4; 0]); [| | exact Hc | exact Hd | discriminate].
  - vm_compute. repeat split; discriminate.
  - vm_compute. discriminate.
Defined.

(** * The stride specification *)

Lemma kVariableStrides_app l1 l2 :
  kVariableStrides (l1 ++ l2) = (kVariableStrides l1 + kVariableStrides l2)%nat.
Proof.
  unfold kVariableStrides. induction l1 as [|s l1 IH]; [reflexivity |].
  simpl. rewrite IH. lia.
Qed.

Lemma kVariableStrides_none l :
  kVariableStrides l = 0%nat <-> (forall i, (i < length l)%nat -> l !!! i <> -1).
Proof.
  unfold kVariableStrides. induction l as [|s l IH]; simpl.
  - split; [intros _ i Hi; lia | reflexivity].
  - destruct (decide (s = kRuntime)) as [->|Hs]; split.
    + discriminate.
    + intros H. exfalso. apply (H 0%nat); [lia | reflexivity].
    + intros H [|i] Hi; [exact Hs |]. apply IH; [exact H | lia].
    + intros H. apply IH. intros i Hi. apply (H (S i)). lia.
Qed.

Lemma kVariableStrides_all l :
  kVariableStrides l = length l <-> (forall i, (i < length l)%nat -> l !!! i = -1).
Proof.
  induction l as [|s l IH].
  - split; [intros _ i Hi; simpl in Hi; lia | reflexivity].
  - pose proof (kVariableStrides_le l) as Hle. unfold kNumDimensions in Hle.
    change (kVariableStrides (s :: l))
      with ((if decide (s = kRuntime) then 1 else 0) + kVariableStrides l)%nat.
    simpl length. destruct (decide (s = kRuntime)) as [->|Hs]; split.
    + intros H [|i] Hi; [reflexivity |]. apply IH; lia.
    + intros H. f_equal. apply IH. intros i Hi. apply (H (S i)). lia.
    + lia.
    + intros H. exfalso. apply Hs. apply (H 0%nat). lia.
Qed.

(** In the documented order no slot from [kVariableStrides] on carries
    the run-time marker. *)
Lemma runtime_first_later Strides i :
  runtime_first Strides ->
  (kVariableStrides Strides <= i < kNumDimensions Strides)%nat ->
  Strides !!! i <> -1.
Proof.
  intros Hfirst Hi. pose proof (kVariableStrides_le Strides) as Hle.
  unfold runtime_first in Hfirst.
  set (k := kVariableStrides Strides) in *. unfold kNumDimensions in *.
  assert (length (take k Strides) = k) as Hlt by (apply length_take_le; lia).
  assert (kVariableStrides (take k Strides) + kVariableStrides (drop k Strides) = k)%nat
    as Hsplit by (rewrite <- kVariableStrides_app, take_drop; reflexivity).
  assert (kVariableStrides (take k Strides) = length (take k Strides)) as Hall.
  { apply kVariableStrides_all. intros j Hj.
    rewrite lookup_total_take_lt by lia. apply Hfirst. lia. }
  assert (kVariableStrides (drop k Strides) = 0%nat) as Hnone by lia.
  pose proof (proj1 (kVariableStrides_none _) Hnone (i - k)%nat) as H.
  rewrite length_drop, lookup_total_drop in H.
  replace (k + (i - k))%nat with i in H by lia. apply H. lia.
Qed.

(** X5: the dimensions split into run-time and constant ones, and the
    documented order can be read either way: the first
    [kVariableStrides] slots are all run-time markers exactly when no
    later slot is one. *)
Theorem stride_specification_order Strides :
  (kVariableStrides Strides + kConstantStrides Strides)%nat = kNumDimensions Strides
  /\ (runtime_first Strides
      <-> forall i, (kVariableStrides Strides <= i < kNumDimensions Strides)%nat ->
                    Strides !!! i <> -1).
Proof.
  pose proof (kVariableStrides_le Strides) as Hle.
  split; [unfold kConstantStrides; lia |].
  split; [intros Hfirst i Hi; apply runtime_first_later; assumption |].
  unfold runtime_first.
  set (k := kVariableStrides Strides) in *. unfold kNumDimensions in *.
  assert (length (take k Strides) = k) as Hlt by (apply length_take_le; lia).
  assert (kVariableStrides (take k Strides) + kVariableStrides (drop k Strides) = k)%nat
    as Hsplit by (rewrite <- kVariableStrides_app, take_drop; reflexivity).
  intros Hlater i Hi.
  assert (kVariableStrides (drop k Strides) = 0%nat) as Hnone.
  { apply kVariableStrides_none. intros j Hj.
    rewrite length_drop in Hj. rewrite lookup_total_drop. apply Hlater. lia. }
  assert (kVariableStrides (take k Strides) = length (take k Strides)) as Hall by lia.
  pose proof (proj1 (kVariableStrides_all _) Hall i) as H.
  rewrite lookup_total_take_lt in H by lia. apply H. lia.
Qed.

Lemma stride_specification_order_witness :
  runtime_first (Tensor4DWrap 4)
  /\ ~ runtime_first [4; -1].
Proof.
  split.
  - apply (proj2 (proj2 (stride_specification_order (Tensor4DWrap 4)))).
    intros [|[|[|[|i]]]] Hi; vm_compute in Hi; try lia. vm_compute. discriminate.
  - intros H.
    apply (proj1 (proj2 (stride_specification_order [4; -1])) H 1%nat);
      [vm_compute; lia | reflexivity].
Defined.

(** X6: when a slot at index [i >= kVariableStrides] carries the
    run-time marker, [ptr] takes the marker itself as the pitch of
    dimension [i]: the coordinate [(0, ..., 0, k)] with [k] at dimension
    [i] is addressed [k] bytes before the base (reduced to [int]),
    whatever the view stores. *)
Theorem ptr_marker_as_pitch Strides V i k :
  (kVariableStrides Strides <= i < kNumDimensions Strides)%nat ->
  Strides !!! i = -1 ->
  ptr Strides V (replicate i 0 ++ [k]) = Some (m_data V + Int.wrap (- k)).
Proof.
  intros Hi Hm. unfold ptr.
  rewrite doGetPtr_offset by (rewrite length_app, length_replicate; simpl; lia).
  do 3 f_equal. rewrite byte_offset_dot, length_app, length_replicate.
  simpl length. replace (i + 1)%nat with (S i) by lia.
  unfold pitches. rewrite seq_S, fmap_app, dot_app
    by (rewrite length_replicate, length_fmap, length_seq; reflexivity).
  simpl. unfold stride_at at 2.
  destruct (decide (i < kVariableStrides Strides)%nat); [lia |].
  rewrite Hm.
  assert (forall p, dot (replicate i 0) p = 0) as Hz.
  { clear. induction i as [|i IH]; intros [|y p]; simpl; try reflexivity.
    rewrite IH. reflexivity. }
  rewrite Hz. lia.
Qed.

Lemma ptr_marker_as_pitch_witness :
  ptr [4; -1] (MkWrap 4096 [640]) [0; 10] = Some (4096 + Int.wrap (- 10)).
Proof.
  apply (ptr_marker_as_pitch [4; -1] (MkWrap 4096 [640]) 1%nat 10);
    [vm_compute; lia | reflexivity].
Defined.

(** * Further properties of construction *)

Lemma slot_checked_spec Strides tensor i :
  slot_checked Strides tensor i = true
  <-> (Strides !!! i <> -1 -> stride tensor i = Strides !!! i)
      /\ (Strides !!! i = -1 -> (i < kVariableStrides Strides)%nat ->
          stride tensor i <= Int.max).
Proof.
  unfold slot_checked.
  destruct (decide (Strides !!! i <> -1)) as [Hc|Hc].
  - rewrite bool_decide_eq_true. split; [intros H; split; [auto | contradiction] | tauto].
  - assert (Strides !!! i = -1) as Hm by (destruct (decide (Strides !!! i = -1)); tauto).
    destruct (decide (i < kVariableStrides Strides)%nat) as [Hi|Hi].
    + rewrite bool_decide_eq_true. split; [intros H; split; [contradiction | auto] | tauto].
    + split; [intros _; split; [contradiction | intros; lia] | reflexivity].
Qed.

(** What a successful construction tells about the descriptor. *)
Lemma TensorWrap_tensor_Ok_conditions Strides tensor V :
  TensorWrap_tensor Strides tensor = Ok V ->
  (kNumDimensions Strides <= rank tensor)%nat
  /\ (forall i, (i < kNumDimensions Strides)%nat -> Strides !!! i <> -1 ->
                stride tensor i = Strides !!! i)
  /\ (forall i, (i < kVariableStrides Strides)%nat -> Strides !!! i = -1 ->
                stride tensor i <= Int.max).
Proof.
  pose proof (kVariableStrides_le Strides) as Hle.
  intros HV. apply TensorWrap_tensor_Ok in HV as (Hr & Hall & _).
  split; [exact Hr |]. split.
  - intros i Hi Hc. apply (slot_checked_spec Strides tensor i); auto.
  - intros i Hi Hm. apply (slot_checked_spec Strides tensor i); auto. apply Hall. lia.
Qed.

(** X7: the tensor constructor produces a view exactly when the
    descriptor has at least as many axes as the view has dimensions,
    every constant slot matches the descriptor's stride, and the stride
    of every run-time slot below [kVariableStrides] is at most
    [TypeTraits<int>::max]. *)
Theorem tensor_ctor_succeeds_iff Strides tensor :
  (exists V, TensorWrap_tensor Strides tensor = Ok V)
  <-> (kNumDimensions Strides <= rank tensor)%nat
      /\ (forall i, (i < kNumDimensions Strides)%nat -> Strides !!! i <> -1 ->
                    stride tensor i = Strides !!! i)
      /\ (forall i, (i < kVariableStrides Strides)%nat -> Strides !!! i = -1 ->
                    stride tensor i <= Int.max).
Proof.
  split.
  - intros [V HV]. exact (TensorWrap_tensor_Ok_conditions Strides tensor V HV).
  - intros (Hr & Hconst & Hvar). eexists.
    apply TensorWrap_tensor_succeeds; [exact Hr |].
    intros i Hi. apply slot_checked_spec. split; auto.
Qed.

Lemma find_first {A} (f : A -> bool) (l1 l2 : list A) (x : A) :
  (forall y, In y l1 -> f y = false) -> f x = true ->
  find f (l1 ++ x :: l2) = Some x.
Proof.
  intros Hl1 Hx. induction l1 as [|y l1 IH]; simpl.
  - rewrite Hx. reflexivity.
  - rewrite (Hl1 y) by (left; reflexivity). apply IH.
    intros z Hz. apply Hl1. right. exact Hz.
Qed.

(** X8: which assertion fires.  A descriptor of too small a rank fails
    the rank assertion whatever its strides; otherwise the loop stops at
    the first slot whose check fails and reports that slot: the constant
    assertion for a constant slot, the range assertion for a run-time
    one. *)
Theorem tensor_ctor_first_failure Strides tensor :
  ((rank tensor < kNumDimensions Strides)%nat ->
   TensorWrap_tensor Strides tensor = Abort assert_rank)
  /\ (forall i,
        (kNumDimensions Strides <= rank tensor)%nat ->
        (i < kNumDimensions Strides)%nat ->
        (forall j, (j < i)%nat -> slot_checked Strides tensor j = true) ->
        slot_checked Strides tensor i = false ->
        TensorWrap_tensor Strides tensor
        = Abort (if decide (Strides !!! i <> -1)
                 then assert_const_stride i else assert_stride_max i)).
Proof.
  split.
  - intros Hr. rewrite TensorWrap_tensor_result.
    rewrite bool_decide_eq_false_2 by lia. reflexivity.
  - intros i Hr Hi Hbefore Hfail. rewrite TensorWrap_tensor_result.
    rewrite bool_decide_eq_true_2 by exact Hr.
    replace (kNumDimensions Strides)
      with (i + S (kNumDimensions Strides - S i))%nat at 1 by lia.
    rewrite seq_app, <- cons_seq, Nat.add_0_l.
    rewrite (find_first _ _ _ i); [reflexivity | | rewrite Hfail; reflexivity].
    intros j Hj. apply in_seq in Hj. rewrite Hbefore by lia. reflexivity.
Qed.

Lemma tensor_ctor_first_failure_witness :
  TensorWrap_tensor (Tensor3DWrap 4) (MkTensor 4096 [307200; 640]) = Abort assert_rank
  /\ TensorWrap_tensor (Tensor3DWrap 4) (MkTensor 4096 [307200; 4294967296; 8])
     = Abort (assert_stride_max 1).
Proof.
  split.
  - apply (proj1 (tensor_ctor_first_failure (Tensor3DWrap 4)
                    (MkTensor 4096 [307200; 640]))).
    vm_compute. lia.
  - apply (proj2 (tensor_ctor_first_failure (Tensor3DWrap 4)
                    (MkTensor 4096 [307200; 4294967296; 8])) 1%nat).
    + vm_compute. lia.
    + vm_compute. lia.
    + intros [|j] Hj; [reflexivity | lia].
    + reflexivity.
Defined.

Lemma foldl_pointwise_in {A B} (f g : A -> B -> A) (a : A) (l : list B) :
  (forall a i, In i l -> f a i = g a i) -> foldl f a l = foldl g a l.
Proof.
  revert a. induction l as [|i l IH]; intros a H; [reflexivity |].
  simpl. rewrite H by (left; reflexivity). apply IH.
  intros b j Hj. apply H. right. exact Hj.
Qed.

(** X9: only the first [kNumDimensions] axes of the descriptor are
    consulted: further axes change nothing in the outcome. *)
Theorem tensor_ctor_ignores_extra_axes Strides base axes extra :
  (kNumDimensions Strides <= length axes)%nat ->
  TensorWrap_tensor Strides (MkTensor base (axes ++ extra))
  = TensorWrap_tensor Strides (MkTensor base axes).
Proof.
  intros Hn. unfold TensorWrap_tensor, rank. simpl tensor_strides.
  rewrite !bool_decide_eq_true_2 by (rewrite ?length_app; lia).
  simpl. unfold for_loop. apply foldl_pointwise_in.
  intros [this|e] j Hj; [| reflexivity]. apply in_seq in Hj.
  unfold tensor_iter. simpl. unfold tensor_step, stride. simpl tensor_strides.
  rewrite lookup_total_app_l by lia. reflexivity.
Qed.

Lemma tensor_ctor_ignores_extra_axes_witness :
  TensorWrap_tensor (Tensor2DWrap 4) (MkTensor 4096 ([640; 4] ++ [1; 77]))
  = TensorWrap_tensor (Tensor2DWrap 4) (MkTensor 4096 [640; 4]).
Proof.
  apply (tensor_ctor_ignores_extra_axes (Tensor2DWrap 4) 4096 [640; 4] [1; 77]).
  vm_compute. lia.
Defined.

(** The pitch a tensor-built view uses for a run-time slot below
    [kVariableStrides]. *)
Lemma tensor_view_stored Strides tensor V i :
  TensorWrap_tensor Strides tensor = Ok V ->
  (i < kVariableStrides Strides)%nat ->
  length (m_strides V) = kVariableStrides Strides
  /\ m_strides V !!! i
     = if decide (Strides !!! i = -1) then Int.wrap (stride tensor i) else 0.
Proof.
  intros HV Hi. pose proof (kVariableStrides_le Strides) as Hle.
  apply TensorWrap_tensor_Ok in HV as (_ & _ & ->). simpl.
  split; [rewrite stored_length; apply length_replicate |].
  rewrite stored_lookup by (rewrite length_replicate; lia).
  destruct (decide (Strides !!! i = -1)) as [Hm|Hm].
  - destruct (decide _) as [_|Hn]; [reflexivity | lia].
  - destruct (decide _) as [[_ [? _]]|_]; [contradiction |].
    apply lookup_total_replicate_2. lia.
Qed.

(** X10: for a stride specification in the documented order, a
    successful construction from a descriptor whose run-time strides are
    not below the least [int] gives the very view the raw-pointer
    constructor builds from the descriptor's base address and its first
    [kVariableStrides] strides; [strides()] returns exactly those. *)
Theorem tensor_ctor_agrees_with_ptr_ctor Strides tensor V :
  runtime_first Strides ->
  (forall i, (i < kVariableStrides Strides)%nat -> Int.min <= stride tensor i) ->
  TensorWrap_tensor Strides tensor = Ok V ->
  TensorWrap_ptr Strides (basePtr tensor)
    (take (kVariableStrides Strides) (tensor_strides tensor)) = Some V
  /\ strides V = take (kVariableStrides Strides) (tensor_strides tensor)
  /\ Mut_TensorWrap_tensor Strides tensor = Ok (MkMutWrap V).
Proof.
  intros Hfirst Hmin HV. pose proof (kVariableStrides_le Strides) as Hle.
  pose proof (TensorWrap_tensor_Ok_conditions Strides tensor V HV) as (Hr & _ & Hmax).
  unfold rank in Hr.
  assert (length (take (kVariableStrides Strides) (tensor_strides tensor))
          = kVariableStrides Strides) as Hlt by (apply length_take_le; lia).
  assert (length (m_strides V) = kVariableStrides Strides) as Hlv.
  { pose proof HV as HV'. apply TensorWrap_tensor_Ok in HV' as (_ & _ & ->). simpl.
    rewrite stored_length. apply length_replicate. }
  assert (m_strides V = take (kVariableStrides Strides) (tensor_strides tensor)) as Hs.
  { apply (list_eq_same_length _ _ (kVariableStrides Strides)); [exact Hlt | exact Hlv |].
    intros i x y Hi Hx Hy.
    apply list_lookup_total_correct in Hx. apply list_lookup_total_correct in Hy.
    rewrite <- Hx, <- Hy.
    rewrite (proj2 (tensor_view_stored Strides tensor V i HV Hi)).
    rewrite decide_True by (apply Hfirst; exact Hi).
    rewrite lookup_total_take_lt by exact Hi.
    apply IntFacts.wrap_small. split; [apply Hmin | apply Hmax]; auto. }
  assert (m_data V = basePtr tensor) as Hd.
  { apply TensorWrap_tensor_Ok in HV as (_ & _ & ->). reflexivity. }
  split; [| split].
  - unfold TensorWrap_ptr. rewrite decide_True by exact Hlt.
    destruct V as [d s]. simpl in *. subst. reflexivity.
  - exact Hs.
  - unfold Mut_TensorWrap_tensor. rewrite HV. reflexivity.
Qed.

Lemma tensor_ctor_agrees_with_ptr_ctor_witness :
  TensorWrap_ptr (Tensor3DWrap 4) 4096 (take 2 [307200; 640; 4; 1])
  = Some (MkWrap 4096 [307200; 640])
  /\ strides (MkWrap 4096 [307200; 640]) = take 2 [307200; 640; 4; 1]
  /\ Mut_TensorWrap_tensor (Tensor3DWrap 4) (MkTensor 4096 [307200; 640; 4; 1])
     = Ok (MkMutWrap (MkWrap 4096 [307200; 640])).
Proof.
  apply (tensor_ctor_agrees_with_ptr_ctor (Tensor3DWrap 4)
           (MkTensor 4096 [307200; 640; 4; 1]) (MkWrap 4096 [307200; 640])).
  - intros [|[|i]] Hi; [reflexivity | reflexivity |].
    unfold Tensor3DWrap, kVariableStrides in Hi. simpl in Hi. lia.
  - intros [|[|i]] Hi; [vm_compute; discriminate | vm_compute; discriminate |].
    unfold Tensor3DWrap, kVariableStrides in Hi. simpl in Hi. lia.
  - reflexivity.
Defined.

(** X11: under the same conditions the view addresses by the
    descriptor's own strides in every dimension: [ptr(c)] is the
    descriptor's base address plus [Σ c[i]·stride(i)] over the supplied
    coordinates (reduced to [int]). *)
Theorem tensor_view_addresses_by_descriptor Strides tensor V c :
  runtime_first Strides ->
  (forall i, (i < kVariableStrides Strides)%nat -> Int.min <= stride tensor i) ->
  TensorWrap_tensor Strides tensor = Ok V ->
  (length c <= kNumDimensions Strides)%nat ->
  ptr Strides V c
  = Some (basePtr tensor + Int.wrap (dot c (tensor_strides tensor))).
Proof.
  intros Hfirst Hmin HV Hlen. pose proof (kVariableStrides_le Strides) as Hle.
  pose proof (TensorWrap_tensor_Ok_conditions Strides tensor V HV)
    as (Hr & Hconst & Hmax).
  assert (m_data V = basePtr tensor) as Hd.
  { pose proof HV as HV'. apply TensorWrap_tensor_Ok in HV' as (_ & _ & ->). reflexivity. }
  unfold ptr. rewrite doGetPtr_offset, Hd by exact Hlen. do 3 f_equal.
  rewrite byte_offset_dot, (dot_take c (tensor_strides tensor)). f_equal.
  unfold rank in Hr.
  apply (list_eq_same_length _ _ (length c)).
  - apply length_take_le. lia.
  - apply pitches_length.
  - intros i x y Hi Hx Hy.
    apply list_lookup_total_correct in Hx. apply list_lookup_total_correct in Hy.
    rewrite <- Hx, <- Hy, pitches_lookup, lookup_total_take_lt by exact Hi.
    unfold stride_at. destruct (decide (i < kVariableStrides Strides)%nat) as [Hk|Hk].
    + rewrite (proj2 (tensor_view_stored Strides tensor V i HV Hk)).
      rewrite decide_True by (apply Hfirst; exact Hk).
      apply IntFacts.wrap_small. split; [apply Hmin | apply Hmax]; auto.
    + symmetry. apply Hconst; [lia |]. apply runtime_first_later; [exact Hfirst | lia].
Qed.

Lemma tensor_view_addresses_by_descriptor_witness :
  ptr (Tensor3DWrap 4) (MkWrap 4096 [307200; 640]) [1; 2; 3]
  = Some (4096 + Int.wrap (dot [1; 2; 3] [307200; 640; 4; 1])).
Proof.
  apply (tensor_view_addresses_by_descriptor (Tensor3DWrap 4)
           (MkTensor 4096 [307200; 640; 4; 1]) (MkWrap 4096 [307200; 640]) [1; 2; 3]).
  - intros [|[|i]] Hi; [reflexivity | reflexivity |].
    unfold Tensor3DWrap, kVariableStrides in Hi. simpl in Hi. lia.
  - intros [|[|i]] Hi; [vm_compute; discriminate | vm_compute; discriminate |].
    unfold Tensor3DWrap, kVariableStrides in Hi. simpl in Hi. lia.
  - reflexivity.
  - vm_compute. lia.
Defined.

(** X12: a constant slot placed below [kVariableStrides] (a
    specification out of the documented order) is checked against the
    descriptor but addressed through the stored pitch, which the tensor
    constructor leaves zero: the view built ignores the coordinate of
    that dimension. *)
Theorem tensor_view_ignores_misplaced_constant Strides tensor V i c x :
  Strides !!! i <> -1 ->
  (i < kVariableStrides Strides)%nat ->
  TensorWrap_tensor Strides tensor = Ok V ->
  (i < length c)%nat ->
  (length c <= kNumDimensions Strides)%nat ->
  stride tensor i = Strides !!! i
  /\ stride_at Strides V i = 0
  /\ ptr Strides V (<[i := x]> c) = ptr Strides V c.
Proof.
  intros Hc Hi HV Hic Hlen. pose proof (kVariableStrides_le Strides) as Hle.
  pose proof (TensorWrap_tensor_Ok_conditions Strides tensor V HV) as (_ & Hconst & _).
  assert (stride_at Strides V i = 0) as Hz.
  { unfold stride_at. rewrite decide_True by exact Hi.
    rewrite (proj2 (tensor_view_stored Strides tensor V i HV Hi)).
    rewrite decide_False by exact Hc. reflexivity. }
  split; [apply Hconst; [lia | exact Hc] |]. split; [exact Hz |].
  unfold ptr. rewrite !doGetPtr_offset by (rewrite ?length_insert; lia).
  do 3 f_equal. rewrite !byte_offset_dot, length_insert.
  rewrite dot_insert by (rewrite ?pitches_length; lia).
  rewrite pitches_lookup, Hz by lia. lia.
Qed.

Lemma tensor_view_ignores_misplaced_constant_witness :
  stride (MkTensor 4096 [640; 4]) 0 = [640; -1] !!! 0%nat
  /\ stride_at [640; -1] (MkWrap 4096 [0]) 0 = 0
  /\ ptr [640; -1] (MkWrap 4096 [0]) (<[0%nat := 100]> [7; 0])
     = ptr [640; -1] (MkWrap 4096 [0]) [7; 0].
Proof.
  apply (tensor_view_ignores_misplaced_constant [640; -1] (MkTensor 4096 [640; 4])
           (MkWrap 4096 [0]) 0%nat [7; 0] 100).
  - discriminate.
  - vm_compute. lia.
  - reflexivity.
  - vm_compute. lia.
  - vm_compute. lia.
Defined.

(** X13: where the image constructor is available it builds the view
    the raw-pointer constructor builds from the base pointer and row
    pitch of plane 0, for the constant and the mutable view alike; no
    other plane and no other attribute of the image is consulted. *)
Theorem image_ctor_agrees_with_ptr_ctor Strides image :
  kVariableStrides Strides = 1%nat ->
  kNumDimensions Strides = 2%nat ->
  TensorWrap_image Strides image
  = TensorWrap_ptr Strides (plane_basePtr (plane image 0)) [rowStride (plane image 0)]
  /\ Mut_TensorWrap_image Strides image
     = Mut.TensorWrap_ptr Strides (plane_basePtr (plane image 0))
         [rowStride (plane image 0)]
  /\ (forall image', plane image' 0 = plane image 0 ->
        TensorWrap_image Strides image' = TensorWrap_image Strides image).
Proof.
  intros Hk Hn.
  assert (forall im, TensorWrap_image Strides im
            = TensorWrap_ptr Strides (plane_basePtr (plane im 0)) [rowStride (plane im 0)])
    as H.
  { intros im. unfold TensorWrap_image, TensorWrap_ptr, TensorWrap_default.
    rewrite decide_True by (split; assumption).
    rewrite decide_True by (rewrite Hk; reflexivity).
    rewrite Hk. reflexivity. }
  split; [apply H |]. split.
  - unfold Mut_TensorWrap_image, Mut.TensorWrap_ptr. rewrite H. reflexivity.
  - intros image' Hp. rewrite !H, Hp. reflexivity.
Qed.

Lemma image_ctor_agrees_with_ptr_ctor_witness :
  TensorWrap_image [-1; 4] (MkImage 3 (fun _ => MkPlane 4096 640))
  = TensorWrap_ptr [-1; 4] 4096 [640].
Proof.
  apply (image_ctor_agrees_with_ptr_ctor [-1; 4] (MkImage 3 (fun _ => MkPlane 4096 640)));
    reflexivity.
Defined.

(** * The shortcuts and the factory functions *)

Lemma kVariableStrides_Tensor3DWrap sizeof_T :
  0 < sizeof_T -> kVariableStrides (Tensor3DWrap sizeof_T) = 2%nat.
Proof.
  intros H. unfold Tensor3DWrap, kVariableStrides, kRuntime. simpl.
  rewrite decide_False by lia. reflexivity.
Qed.

Lemma kVariableStrides_Tensor4DWrap sizeof_T :
  0 < sizeof_T -> kVariableStrides (Tensor4DWrap sizeof_T) = 3%nat.
Proof.
  intros H. unfold Tensor4DWrap, kVariableStrides, kRuntime. simpl.
  rewrite decide_False by lia. reflexivity.
Qed.

Lemma TensorWrap_ptr_Tensor3DWrap sizeof_T base s r :
  0 < sizeof_T ->
  TensorWrap_ptr (Tensor3DWrap sizeof_T) base [s; r] = Some (MkWrap base [s; r]).
Proof.
  intros H. unfold TensorWrap_ptr.
  rewrite decide_True by (rewrite kVariableStrides_Tensor3DWrap by exact H; reflexivity).
  reflexivity.
Qed.

Lemma TensorWrap_ptr_Tensor4DWrap sizeof_T base s r c :
  0 < sizeof_T ->
  TensorWrap_ptr (Tensor4DWrap sizeof_T) base [s; r; c] = Some (MkWrap base [s; r; c]).
Proof.
  intros H. unfold TensorWrap_ptr.
  rewrite decide_True by (rewrite kVariableStrides_Tensor4DWrap by exact H; reflexivity).
  reflexivity.
Qed.

(** X14: [TensorNDWrap] selects, for [N] from 1 to 4, a specification
    of [N] dimensions with [N - 1] leading run-time pitches and the
    element size as the single, innermost constant pitch; for any other
    [N] it selects none. *)
Theorem TensorNDWrap_shape sizeof_T N :
  0 < sizeof_T ->
  (1 <= N <= 4 ->
   exists Strides,
     TensorNDWrap sizeof_T N = Some Strides
     /\ Z.of_nat (kNumDimensions Strides) = N
     /\ Z.of_nat (kVariableStrides Strides) = N - 1
     /\ kConstantStrides Strides = 1%nat
     /\ runtime_first Strides
     /\ Strides !!! (Z.to_nat (N - 1)) = sizeof_T)
  /\ (~ 1 <= N <= 4 -> TensorNDWrap sizeof_T N = None).
Proof.
  intros Hsz. split.
  - intros HN.
    assert (N = 1 \/ N = 2 \/ N = 3 \/ N = 4) as [-> | [-> | [-> | ->]]] by lia;
      eexists; (split; [reflexivity |]);
      unfold runtime_first, kConstantStrides, kNumDimensions, kVariableStrides, kRuntime;
      simpl; rewrite decide_False by lia; simpl;
      (repeat split; try reflexivity);
      intros i Hi; repeat (destruct i as [|i]; [reflexivity |]); lia.
  - intros HN. unfold TensorNDWrap.
    repeat (destruct (decide _); [lia |]). reflexivity.
Qed.

Lemma TensorNDWrap_shape_witness :
  (exists Strides,
     TensorNDWrap 4 3 = Some Strides
     /\ Z.of_nat (kNumDimensions Strides) = 3
     /\ Z.of_nat (kVariableStrides Strides) = 3 - 1
     /\ kConstantStrides Strides = 1%nat
     /\ runtime_first Strides
     /\ Strides !!! (Z.to_nat (3 - 1)) = 4)
  /\ TensorNDWrap 4 5 = None.
Proof.
  split.
  - apply (proj1 (TensorNDWrap_shape 4 3 ltac:(lia))). lia.
  - apply (proj2 (TensorNDWrap_shape 4 5 ltac:(lia))). lia.
Defined.

(** X15: [CreateTensorWrapNHW] produces a view exactly when the access
    object exists and its sample and row strides are at most
    [TypeTraits<int>::max]; with both strides in the [int] range the view
    stores them unchanged and addresses [(n, h, w)] at the tensor's base
    address plus [n·sampleStride + h·rowStride + w·sizeof(T)] (reduced
    to [int]). *)
Theorem CreateTensorWrapNHW_view Create sizeof_T tensor :
  0 < sizeof_T ->
  ((exists V, CreateTensorWrapNHW Create sizeof_T tensor = Created (Some V))
   <-> exists a, Create tensor = Some a
                 /\ sampleStride a <= Int.max /\ planar_rowStride a <= Int.max)
  /\ (forall a n h w,
        Create tensor = Some a ->
        Int.in_range (sampleStride a) ->
        Int.in_range (planar_rowStride a) ->
        exists V,
          CreateTensorWrapNHW Create sizeof_T tensor = Created (Some V)
          /\ m_data V = basePtr tensor
          /\ strides V = [sampleStride a; planar_rowStride a]
          /\ ptr (Tensor3DWrap sizeof_T) V [n; h; w]
             = Some (basePtr tensor
                     + Int.wrap (n * sampleStride a + h * planar_rowStride a
                                 + w * sizeof_T))).
Proof.
  intros Hsz. pose proof (kVariableStrides_Tensor3DWrap sizeof_T Hsz) as Hk.
  assert (forall s r, TensorWrap_ptr (Tensor3DWrap sizeof_T) (basePtr tensor) [s; r]
                      = Some (MkWrap (basePtr tensor) [s; r])) as Hctor.
  { intros s r. unfold TensorWrap_ptr. rewrite decide_True by (rewrite Hk; reflexivity).
    reflexivity. }
  split; [split |].
  - intros [V HV]. unfold CreateTensorWrapNHW in HV.
    destruct (Create tensor) as [a|]; [| discriminate]. exists a.
    destruct (bool_decide (sampleStride a <= Int.max)) eqn:H1; [| discriminate].
    destruct (bool_decide (planar_rowStride a <= Int.max)) eqn:H2; [| discriminate].
    apply bool_decide_eq_true in H1. apply bool_decide_eq_true in H2. auto.
  - intros (a & Ha & H1 & H2). unfold CreateTensorWrapNHW.
    rewrite Ha, !bool_decide_eq_true_2 by assumption. simpl.
    rewrite Hctor. eexists. reflexivity.
  - intros a n h w Ha [H1l H1u] [H2l H2u]. unfold CreateTensorWrapNHW.
    rewrite Ha, !bool_decide_eq_true_2 by assumption. simpl.
    rewrite Hctor, !IntFacts.wrap_small by (split; assumption).
    eexists. split; [reflexivity |]. split; [reflexivity |]. split; [reflexivity |].
    unfold ptr. rewrite doGetPtr_offset by (simpl; lia).
    simpl m_data. do 3 f_equal.
    unfold byte_offset, stride_at. rewrite Hk. simpl. lia.
Qed.

Lemma CreateTensorWrapNHW_view_witness :
  exists V,
    CreateTensorWrapNHW (fun _ => Some (MkAccess 307200 640 4)) 4
      (MkTensor 4096 [307200; 640; 4; 1]) = Created (Some V)
    /\ m_data V = 4096
    /\ strides V = [307200; 640]
    /\ ptr (Tensor3DWrap 4) V [1; 2; 3]
       = Some (4096 + Int.wrap (1 * 307200 + 2 * 640 + 3 * 4)).
Proof.
  apply (proj2 (CreateTensorWrapNHW_view (fun _ => Some (MkAccess 307200 640 4)) 4
                  (MkTensor 4096 [307200; 640; 4; 1]) ltac:(lia))
           (MkAccess 307200 640 4) 1 2 3 eq_refl);
    vm_compute; split; discriminate.
Defined.

(** X16: [CreateTensorWrapNHWC] checks the access object, then the
    sample, the row and the column stride, in this order, and reports
    the first check that fails; only an upper bound is checked, so a
    stride below the least [int] is accepted and stored reduced to
    [int]. *)
Theorem CreateTensorWrapNHWC_checks Create sizeof_T tensor :
  0 < sizeof_T ->
  (Create tensor = None ->
   CreateTensorWrapNHWC Create sizeof_T tensor = Failed assert_tensorAccess)
  /\ (forall a, Create tensor = Some a ->
        (Int.max < sampleStride a ->
         CreateTensorWrapNHWC Create sizeof_T tensor = Failed assert_sampleStride)
        /\ (sampleStride a <= Int.max -> Int.max < planar_rowStride a ->
            CreateTensorWrapNHWC Create sizeof_T tensor = Failed assert_rowStride)
        /\ (sampleStride a <= Int.max -> planar_rowStride a <= Int.max ->
            Int.max < colStride a ->
            CreateTensorWrapNHWC Create sizeof_T tensor = Failed assert_colStride)
        /\ (sampleStride a <= Int.max -> planar_rowStride a <= Int.max ->
            colStride a <= Int.max ->
            CreateTensorWrapNHWC Create sizeof_T tensor
            = Created (Some (MkWrap (basePtr tensor)
                               [Int.wrap (sampleStride a);
                                Int.wrap (planar_rowStride a);
                                Int.wrap (colStride a)])))).
Proof.
  intros Hsz. pose proof (kVariableStrides_Tensor4DWrap sizeof_T Hsz) as Hk.
  split; [intros Hn; unfold CreateTensorWrapNHWC; rewrite Hn; reflexivity |].
  intros a Ha. unfold CreateTensorWrapNHWC. rewrite Ha.
  split; [| split; [| split]].
  - intros H. rewrite bool_decide_eq_false_2 by lia. reflexivity.
  - intros H1 H2. rewrite bool_decide_eq_true_2 by lia.
    rewrite bool_decide_eq_false_2 by lia. reflexivity.
  - intros H1 H2 H3. rewrite !bool_decide_eq_true_2 by lia.
    rewrite bool_decide_eq_false_2 by lia. reflexivity.
  - intros H1 H2 H3. rewrite !bool_decide_eq_true_2 by lia. simpl.
    unfold TensorWrap_ptr. rewrite decide_True by (rewrite Hk; reflexivity).
    reflexivity.
Qed.

Lemma CreateTensorWrapNHWC_checks_witness :
  CreateTensorWrapNHWC (fun _ => None) 4 (MkTensor 4096 []) = Failed assert_tensorAccess
  /\ CreateTensorWrapNHWC (fun _ => Some (MkAccess 614400 4294967296 4)) 4
       (MkTensor 4096 []) = Failed assert_rowStride
  /\ CreateTensorWrapNHWC (fun _ => Some (MkAccess 614400 (-2147483649) 4)) 4
       (MkTensor 4096 [])
     = Created (Some (MkWrap 4096 [614400; 2147483647; 4])).
Proof.
  split; [| split].
  - apply (proj1 (CreateTensorWrapNHWC_checks (fun _ => None) 4 (MkTensor 4096 [])
                    ltac:(lia)) eq_refl).
  - apply (proj2 (CreateTensorWrapNHWC_checks
                    (fun _ => Some (MkAccess 614400 4294967296 4)) 4 (MkTensor 4096 [])
                    ltac:(lia)) _ eq_refl); vm_compute; [discriminate | reflexivity].
  - apply (proj2 (CreateTensorWrapNHWC_checks
                    (fun _ => Some (MkAccess 614400 (-2147483649) 4)) 4 (MkTensor 4096 [])
                    ltac:(lia)) _ eq_refl); vm_compute; discriminate.
Defined.

(** X17: the two factories agree on pixels.  If the 4-D factory
    succeeds and the column stride, as an [int], is the element size of
    the 3-D view, the 3-D factory succeeds too and both views address
    pixel [(n, h, w)] at the same place. *)
Theorem CreateTensorWrapNHWC_agrees_with_NHW Create sizeof_C sizeof_T tensor a V4 n h w :
  0 < sizeof_C ->
  0 < sizeof_T ->
  Create tensor = Some a ->
  Int.wrap (colStride a) = sizeof_T ->
  CreateTensorWrapNHWC Create sizeof_C tensor = Created (Some V4) ->
  exists V3,
    CreateTensorWrapNHW Create sizeof_T tensor = Created (Some V3)
    /\ ptr (Tensor3DWrap sizeof_T) V3 [n; h; w]
       = ptr (Tensor4DWrap sizeof_C) V4 [n; h; w].
Proof.
  intros HC HT Ha Hcol H4.
  pose proof (kVariableStrides_Tensor3DWrap sizeof_T HT) as Hk3.
  pose proof (kVariableStrides_Tensor4DWrap sizeof_C HC) as Hk4.
  unfold CreateTensorWrapNHWC in H4. unfold CreateTensorWrapNHW.
  rewrite Ha in *.
  destruct (bool_decide (sampleStride a <= Int.max)); [| discriminate].
  destruct (bool_decide (planar_rowStride a <= Int.max)); [| discriminate].
  destruct (bool_decide (colStride a <= Int.max)); [| discriminate].
  cbn [negb] in *.
  rewrite TensorWrap_ptr_Tensor4DWrap in H4 by exact HC.
  rewrite TensorWrap_ptr_Tensor3DWrap by exact HT.
  injection H4 as <-. eexists. split; [reflexivity |].
  unfold ptr. rewrite !doGetPtr_offset by (simpl; lia).
  simpl m_data. do 3 f_equal.
  unfold byte_offset, stride_at. rewrite Hk3, Hk4. simpl. rewrite Hcol. lia.
Qed.

Lemma CreateTensorWrapNHWC_agrees_with_NHW_witness :
  exists V3,
    CreateTensorWrapNHW (fun _ => Some (MkAccess 307200 640 4)) 4
      (MkTensor 4096 [307200; 640; 4; 1]) = Created (Some V3)
    /\ ptr (Tensor3DWrap 4) V3 [1; 2; 3]
       = ptr (Tensor4DWrap 1) (MkWrap 4096 [307200; 640; 4]) [1; 2; 3].
Proof.
  apply (CreateTensorWrapNHWC_agrees_with_NHW (fun _ => Some (MkAccess 307200 640 4))
           1 4 (MkTensor 4096 [307200; 640; 4; 1]) (MkAccess 307200 640 4)
           (MkWrap 4096 [307200; 640; 4]) 1 2 3);
    try reflexivity; lia.
Defined.

(** * [Size2D] *)

(** X18: [operator==] holds exactly for sizes with the same width and
    the same height, [operator!=] exactly for the others. *)
Theorem Size2D_eq_spec (a b : Size.Size2D) :
  (Size.eq a b = true <-> a = b)
  /\ (Size.ne a b = true <-> a <> b).
Proof.
  assert (Size.eq a b = true <-> a = b) as He.
  { unfold Size.eq, Size.tuple_eq, Size.tie. simpl.
    rewrite andb_true_iff, !bool_decide_eq_true.
    destruct a, b; simpl; split; [intros [-> ->]; reflexivity | intros [= -> ->]; auto]. }
  split; [exact He |].
  unfold Size.ne. destruct (Size.eq a b); simpl.
  - split; [discriminate | intros H; exfalso; apply H, He; reflexivity].
  - split; [intros _ H; apply He in H; discriminate | reflexivity].
Qed.

(** X19: [operator<] is the lexicographic order on (width, height): a
    strict total order, of which exactly one of [a < b], [a == b],
    [b < a] holds for any two sizes. *)
Theorem Size2D_lt_strict_total_order (a b c : Size.Size2D) :
  (Size.lt a b = true
   <-> Size.w a < Size.w b \/ (Size.w a = Size.w b /\ Size.h a < Size.h b))
  /\ Size.lt a a = false
  /\ (Size.lt a b = true -> Size.lt b c = true -> Size.lt a c = true)
  /\ (Size.lt a b = true /\ Size.eq a b = false /\ Size.lt b a = false
      \/ Size.lt a b = false /\ Size.eq a b = true /\ Size.lt b a = false
      \/ Size.lt a b = false /\ Size.eq a b = false /\ Size.lt b a = true).
Proof.
  assert (forall x y, Size.lt x y = true
            <-> Size.w x < Size.w y \/ (Size.w x = Size.w y /\ Size.h x < Size.h y))
    as Hlt.
  { intros x y. unfold Size.lt, Size.tuple_lt, Size.tie. simpl.
    repeat case_bool_decide; split; intros; try discriminate; try reflexivity; lia. }
  assert (forall x y, Size.lt x y = false
            <-> ~ (Size.w x < Size.w y \/ (Size.w x = Size.w y /\ Size.h x < Size.h y)))
    as Hnlt.
  { intros x y. rewrite <- Hlt. destruct (Size.lt x y); split; try discriminate; auto.
    intros H. exfalso. apply H. reflexivity. }
  assert (forall x y, Size.eq x y = true <-> Size.w x = Size.w y /\ Size.h x = Size.h y)
    as Heq.
  { intros x y. unfold Size.eq, Size.tuple_eq, Size.tie. simpl.
    rewrite andb_true_iff, !bool_decide_eq_true. reflexivity. }
  assert (forall x y, Size.eq x y = false
            <-> ~ (Size.w x = Size.w y /\ Size.h x = Size.h y)) as Hneq.
  { intros x y. rewrite <- Heq. destruct (Size.eq x y); split; try discriminate; auto.
    intros H. exfalso. apply H. reflexivity. }
  split; [apply Hlt |]. split; [apply Hnlt; lia |]. split.
  - rewrite !Hlt. lia.
  - rewrite !Hlt, !Hnlt, Heq, Hneq. lia.
Qed.

(** * The OSD operator *)

(** X20: [OSD::operator()] validates the input before the output and
    both before running the legacy operator: an input that does not
    export fails with the input message whatever the output is, an
    output that does not export fails with the output message, in both
    cases whatever the legacy operator would do; the call returns
    exactly when both tensors export and the legacy operator's error
    code passes the check. *)
Theorem OSD_call_validation {Tensor TensorData Elements Stream ErrorCode : Type}
    (exportData : Tensor -> option TensorData)
    (infer infer' : TensorData -> TensorData -> Elements -> Stream -> ErrorCode)
    (failed : ErrorCode -> bool)
    (stream : Stream) (in_ out : Tensor) (elements : Elements) :
  (exportData in_ = None ->
   OSD.call exportData infer failed stream in_ out elements
   = OSD.thrown (OSD.MkException OSD.ERROR_INVALID_ARGUMENT
                   "Input must be cuda-accessible, pitch-linear tensor"))
  /\ (is_Some (exportData in_) -> exportData out = None ->
      OSD.call exportData infer failed stream in_ out elements
      = OSD.thrown (OSD.MkException OSD.ERROR_INVALID_ARGUMENT
                      "Output must be cuda-accessible, pitch-linear tensor"))
  /\ (exportData in_ = None \/ exportData out = None ->
      OSD.call exportData infer failed stream in_ out elements
      = OSD.call exportData infer' failed stream in_ out elements)
  /\ (OSD.call exportData infer failed stream in_ out elements = OSD.returned
      <-> exists inData outData,
            exportData in_ = Some inData /\ exportData out = Some outData
            /\ failed (infer inData outData elements stream) = false).
Proof.
  unfold OSD.call. split; [| split; [| split]].
  - intros ->. reflexivity.
  - intros [x ->] ->. reflexivity.
  - intros [-> | ->]; [reflexivity |]. destruct (exportData in_); reflexivity.
  - destruct (exportData in_) as [i|]; [| split; [discriminate | intros (? & ? & [=] & _)]].
    destruct (exportData out) as [o|];
      [| split; [discriminate | intros (? & ? & _ & [=] & _)]].
    simpl. destruct (failed (infer i o elements stream)) eqn:Hf; split.
    + discriminate.
    + intros (? & ? & [= <-] & [= <-] & H). congruence.
    + intros _. eauto.
    + reflexivity.
Qed.

Lemma OSD_call_validation_witness :
  OSD.call (fun t : bool => if t then Some tt else None)
    (fun _ _ (_ _ : unit) => 0%nat) (fun e => negb (Nat.eqb e 0)) tt false true tt
  = OSD.thrown (OSD.MkException OSD.ERROR_INVALID_ARGUMENT
                  "Input must be cuda-accessible, pitch-linear tensor")
  /\ OSD.call (fun t : bool => if t then Some tt else None)
       (fun _ _ (_ _ : unit) => 0%nat) (fun e => negb (Nat.eqb e 0)) tt true false tt
     = OSD.thrown (OSD.MkException OSD.ERROR_INVALID_ARGUMENT
                     "Output must be cuda-accessible, pitch-linear tensor").
Proof.
  split.
  - apply (proj1 (OSD_call_validation (fun t : bool => if t then Some tt else None)
                    (fun _ _ (_ _ : unit) => 0%nat) (fun _ _ (_ _ : unit) => 0%nat)
                    (fun e => negb (Nat.eqb e 0)) tt false true tt) eq_refl).
  - apply (proj1 (proj2 (OSD_call_validation
                    (fun t : bool => if t then Some tt else None)
                    (fun _ _ (_ _ : unit) => 0%nat) (fun _ _ (_ _ : unit) => 0%nat)
                    (fun e => negb (Nat.eqb e 0)) tt true false tt))
             (ex_intro _ tt eq_refl) eq_refl).
Defined.

(** * Partial subscripts *)

(** X23: a coordinate vector with fewer components than the view has
    dimensions addresses the outermost dimensions: [operator[]] yields
    the address [ptr] gives for the reversed components followed by zero
    coordinates, so [x] then addresses dimension [NumElements - 1], not
    the innermost one. *)
Theorem subscript_partial Strides V c :
  (NumElements c <= kNumDimensions Strides)%nat ->
  exists p,
    subscript Strides V c = Some p
    /\ ptr Strides V
         (rev (components c) ++ replicate (kNumDimensions Strides - NumElements c) 0)
       = Some p.
Proof.
  intros Hn. exists (m_data V + Int.wrap (byte_offset Strides V (rev (components c)))).
  rewrite subscript_ptr. unfold ptr.
  rewrite !doGetPtr_offset, byte_offset_pad;
    rewrite ?length_app, ?length_replicate, ?length_rev, ?components_length;
    [done | lia | lia].
Qed.

Lemma subscript_partial_witness :
  exists p,
    subscript (Tensor4DWrap 4) (MkWrap 4096 [614400; 1280; 4]) (dim_int2 3 1) = Some p
    /\ ptr (Tensor4DWrap 4) (MkWrap 4096 [614400; 1280; 4]) [1; 3; 0; 0] = Some p.
Proof.
  apply (subscript_partial (Tensor4DWrap 4) (MkWrap 4096 [614400; 1280; 4]) (dim_int2 3 1)).
  vm_compute. lia.
Defined.

Lemma tensor_ctor_succeeds_iff_witness :
  exists V, TensorWrap_tensor (Tensor3DWrap 4) (MkTensor 4096 [307200; 640; 4; 1]) = Ok V.
Proof.
  apply (proj2 (tensor_ctor_succeeds_iff (Tensor3DWrap 4)
                  (MkTensor 4096 [307200; 640; 4; 1]))).
  split; [vm_compute; lia |]. split.
  - intros [|[|[|i]]] Hi Hc; try reflexivity;
      [exfalso; apply Hc; reflexivity | exfalso; apply Hc; reflexivity |].
    unfold Tensor3DWrap, kNumDimensions in Hi. simpl in Hi. lia.
  - intros [|[|i]] Hi Hm; [vm_compute; discriminate | vm_compute; discriminate |].
    unfold Tensor3DWrap, kVariableStrides in Hi. simpl in Hi. lia.
Defined.

Lemma Size2D_lt_strict_total_order_witness :
  Size.lt (Size.MkSize2D 640 480) (Size.MkSize2D 1920 1080) = true.
Proof.
  apply (proj1 (proj2 (proj2 (Size2D_lt_strict_total_order
                  (Size.MkSize2D 640 480) (Size.MkSize2D 640 481)
                  (Size.MkSize2D 1920 1080))))); reflexivity.
Defined.
